(** * Tiled map processing: a shallow embedding of [map_processor.py]

    The development follows the Python module
    [plugin/deep_segmentation_framework/processing/map_processor.py]:

    - Python integers are [Z]; [//] and [%] are [Z.div] and [Z.modulo]
      (both round towards minus infinity, as in Python).
    - Python floats (extent coordinates, units per pixel, progress) are
      modelled as exact rationals [Q].  [round] is Python 3's
      round-half-to-even, [int] is truncation towards zero.  Every concrete
      evaluation in this file uses dyadic rationals of small magnitude, on
      which binary64 arithmetic is exact.
    - [QgsRectangle] is the QGIS value class: four coordinates, a
      normalising constructor, [intersect], [width], [height].
    - numpy arrays that are mutated in place live in a store of buffers;
      array values are references into it (whole buffer or channel view).
    - exceptions are an explicit outcome of fallible operations. *)

From stdpp Require Import gmap strings list.
From Stdlib Require Import ZArith QArith Qround Qminmax Lia Lqa Permutation.

Local Open Scope Z_scope.

Set Warnings "-register-all".

(** ** Python numerics and exceptions *)

Inductive py_exn :=
  | AssertionError
  | IndexError
  | ZeroDivisionError
  | ValueError
  | Exception (msg : string).

Inductive result (A : Type) :=
  | Ok (a : A)
  | Raise (e : py_exn).
Arguments Ok {A} a.
Arguments Raise {A} e.

#[global] Instance result_ret : MRet result := fun A a => Ok a.
#[global] Instance result_bind : MBind result := fun A B f m =>
  match m with
  | Ok a => f a
  | Raise e => Raise e
  end.

Definition raises {A} (r : result A) : Prop := exists e, r = Raise e.

(** Python 3 [round(x)] of a float: nearest integer, ties to even. *)
Definition py_round (q : Q) : Z :=
  let f := Qfloor q in
  match Qcompare (q - inject_Z f) (1 # 2) with
  | Lt => f
  | Gt => f + 1
  | Eq => if Z.even f then f else f + 1
  end.

(** Python [int(x)] of a float: truncation towards zero. *)
Definition py_int (q : Q) : Z :=
  if Qle_bool 0 q then Qfloor q else Qceiling q.

(** Python [a / b] on floats (and on ints, whose quotient is a float). *)
Definition py_truediv (a b : Q) : result Q :=
  if Qeq_bool b 0 then Raise ZeroDivisionError else Ok (a / b)%Q.

(** Python [a % b] on ints. *)
Definition py_mod (a b : Z) : result Z :=
  if b =? 0 then Raise ZeroDivisionError else Ok (a mod b).

(** Python [l[i]] on a sequence: a negative index counts from the end. *)
Definition py_getitem {A} (l : list A) (i : Z) : result A :=
  let n := Z.of_nat (length l) in
  let j := if i <? 0 then i + n else i in
  if (0 <=? j) && (j <? n) then
    match l !! Z.to_nat j with
    | Some a => Ok a
    | None => Raise IndexError
    end
  else Raise IndexError.

(** ** QgsRectangle *)

Record QgsRectangle := mkRect {
  xMinimum : Q;
  yMinimum : Q;
  xMaximum : Q;
  yMaximum : Q
}.

Definition Qltb (a b : Q) : bool := negb (Qle_bool b a).

(** [QgsRectangle(xmin, ymin, xmax, ymax)]: the constructor normalises,
    swapping the bounds of an axis given in the wrong order. *)
Definition QgsRectangle_new (x0 y0 x1 y1 : Q) : QgsRectangle :=
  let '(xa, xb) := if Qltb x1 x0 then (x1, x0) else (x0, x1) in
  let '(ya, yb) := if Qltb y1 y0 then (y1, y0) else (y0, y1) in
  mkRect xa ya xb yb.

(** [QgsRectangle()]: the null rectangle. *)
Definition QgsRectangle_null : QgsRectangle := mkRect 0 0 0 0.

Definition width (r : QgsRectangle) : Q := xMaximum r - xMinimum r.
Definition height (r : QgsRectangle) : Q := yMaximum r - yMinimum r.

Definition setXMinimum (r : QgsRectangle) (v : Q) : QgsRectangle :=
  mkRect v (yMinimum r) (xMaximum r) (yMaximum r).
Definition setXMaximum (r : QgsRectangle) (v : Q) : QgsRectangle :=
  mkRect (xMinimum r) (yMinimum r) v (yMaximum r).
Definition setYMinimum (r : QgsRectangle) (v : Q) : QgsRectangle :=
  mkRect (xMinimum r) v (xMaximum r) (yMaximum r).
Definition setYMaximum (r : QgsRectangle) (v : Q) : QgsRectangle :=
  mkRect (xMinimum r) (yMinimum r) (xMaximum r) v.

(** [a.intersects(b)]: closed rectangles sharing at least one point. *)
Definition intersects (a b : QgsRectangle) : bool :=
  let x1 := Qmax (xMinimum a) (xMinimum b) in
  let x2 := Qmin (xMaximum a) (xMaximum b) in
  let y1 := Qmax (yMinimum a) (yMinimum b) in
  let y2 := Qmin (yMaximum a) (yMaximum b) in
  Qle_bool x1 x2 && Qle_bool y1 y2.

(** [a.intersect(b)]: the common rectangle, the null rectangle when the
    two do not meet. *)
Definition intersect (a b : QgsRectangle) : QgsRectangle :=
  if intersects a b then
    mkRect (Qmax (xMinimum a) (xMinimum b)) (Qmax (yMinimum a) (yMinimum b))
           (Qmin (xMaximum a) (xMaximum b)) (Qmin (yMaximum a) (yMaximum b))
  else QgsRectangle_null.

(** [inner] lies inside [outer]. *)
Definition rect_contains (outer inner : QgsRectangle) : Prop :=
  (xMinimum outer <= xMinimum inner)%Q /\ (xMaximum inner <= xMaximum outer)%Q /\
  (yMinimum outer <= yMinimum inner)%Q /\ (yMaximum inner <= yMaximum outer)%Q.

Definition rect_normalized (r : QgsRectangle) : Prop :=
  (xMinimum r <= xMaximum r)%Q /\ (yMinimum r <= yMaximum r)%Q.

(** ** The QGIS objects the processor talks to *)

Inductive DistanceUnit := DistanceMeters | DistanceOtherUnit.

Record QgsCoordinateReferenceSystem := mkCrs {
  authid : string;
  mapUnits : DistanceUnit
}.

Module QgsRasterLayer.
Record t := mk {
  extent : QgsRectangle;
  rasterUnitsPerPixelX : Q;
  rasterUnitsPerPixelY : Q;
  crs : QgsCoordinateReferenceSystem
}.
End QgsRasterLayer.

(** A geometry, seen through [convertToSingleType(); boundingBox()]. *)
Record QgsGeometry := mkGeometry { boundingBox : QgsRectangle }.

Module QgsVectorLayer.
Record t := mk {
  getGeometry : Z -> QgsGeometry;
  sourceCrs : QgsCoordinateReferenceSystem
}.
End QgsVectorLayer.

Module QgsMapCanvas.
Record t := mk {
  extent : QgsRectangle;
  destinationCrs : QgsCoordinateReferenceSystem
}.
End QgsMapCanvas.

(** The parts of the running application that the processor queries:
    [QgsProject.instance().mapLayersByName] and the rectangle transform
    of a [QgsCoordinateTransform] between two reference systems. *)
Record Qgis := mkQgis {
  mapLayersByName : string -> list QgsVectorLayer.t;
  transform : QgsCoordinateReferenceSystem -> QgsCoordinateReferenceSystem ->
              QgsRectangle -> QgsRectangle
}.

(** ** Inference parameters *)

Inductive ProcessedAreaType :=
  | VISIBLE_PART
  | ENTIRE_LAYER
  | FROM_POLYGONS
  | OTHER_AREA_TYPE (tag : string).

(** The fields of [InferenceParameters] that the processor reads.  The
    class itself lives in [common/inference_parameters.py]; the processor
    only reads attributes, so they are plain record fields here. *)
Record InferenceParameters := mkParams {
  resolution_m_per_px : Q;
  tile_size_px : Z;
  processing_overlap_px : Z;
  processing_stride_px : Z;
  processed_area_type : ProcessedAreaType;
  mask_layer_name : option string;
  postprocessing_dilate_erode_size : Z
}.

(** ** TileParams *)

(** [np.s_[a:b]]: a slice object with integer bounds. *)
Record slice := mkSlice { start : Z; stop : Z }.

Module TileParams.
Record t := mk {
  x_bin_number : Z;
  y_bin_number : Z;
  x_bins_number : Z;
  y_bins_number : Z;
  stride_px : Z;
  start_pixel_x : Z;
  start_pixel_y : Z;
  inference_parameters : InferenceParameters;
  rlayer_units_per_pixel : Q;
  extent : QgsRectangle
}.

(** [_calculate_extent], on the attributes set before it is called. *)
Definition _calculate_extent (ip : InferenceParameters) (upp : Q)
    (spx spy : Z) (processing_extent : QgsRectangle) : QgsRectangle :=
  let tile_extent := processing_extent in
  let x_min := (xMinimum processing_extent + inject_Z spx * upp)%Q in
  let y_max := (yMaximum processing_extent - inject_Z spy * upp)%Q in
  let tile_extent := setXMinimum tile_extent x_min in
  let tile_extent :=
    setXMaximum tile_extent (x_min + inject_Z (tile_size_px ip) * upp)%Q in
  let tile_extent := setYMaximum tile_extent y_max in
  let y_min := (y_max - inject_Z (tile_size_px ip) * upp)%Q in
  setYMinimum tile_extent y_min.

Definition __init__ (x_bin_number y_bin_number x_bins_number y_bins_number : Z)
    (inference_parameters : InferenceParameters)
    (rlayer_units_per_pixel : Q) (processing_extent : QgsRectangle) : t :=
  let stride_px := processing_stride_px inference_parameters in
  let start_pixel_x := x_bin_number * stride_px in
  let start_pixel_y := y_bin_number * stride_px in
  mk x_bin_number y_bin_number x_bins_number y_bins_number stride_px
     start_pixel_x start_pixel_y inference_parameters rlayer_units_per_pixel
     (_calculate_extent inference_parameters rlayer_units_per_pixel
        start_pixel_x start_pixel_y processing_extent).

(** The pair [(rows, columns)] of
    [np.s_[y_min:y_max + 1, x_min:x_max + 1]]. *)
Definition get_slice_on_full_image_for_copying (self : t) : slice * slice :=
  let tile := tile_size_px (inference_parameters self) in
  let half_overlap := (tile - stride_px self) / 2 in
  let x_min := start_pixel_x self + half_overlap in
  let x_max := start_pixel_x self + tile - half_overlap - 1 in
  let y_min := start_pixel_y self + half_overlap in
  let y_max := start_pixel_y self + tile - half_overlap - 1 in
  let x_min :=
    if x_bin_number self =? 0 then x_min - half_overlap else x_min in
  let y_min :=
    if y_bin_number self =? 0 then y_min - half_overlap else y_min in
  let x_max :=
    if x_bin_number self =? x_bins_number self - 1 then x_max + half_overlap
    else x_max in
  let y_max :=
    if y_bin_number self =? y_bins_number self - 1 then y_max + half_overlap
    else y_max in
  (mkSlice y_min (y_max + 1), mkSlice x_min (x_max + 1)).

(** [None] for the optional argument recomputes the slice on the full
    image (a tuple of slices is always truthy). *)
Definition get_slice_on_tile_image_for_copying (self : t)
    (roi_slice_on_full_image : option (slice * slice)) : slice * slice :=
  let r := match roi_slice_on_full_image with
           | Some r => r
           | None => get_slice_on_full_image_for_copying self
           end in
  (mkSlice (start (fst r) - start_pixel_y self)
           (stop (fst r) - start_pixel_y self),
   mkSlice (start (snd r) - start_pixel_x self)
           (stop (snd r) - start_pixel_x self)).
End TileParams.

(** A pixel index lies in a slice of non-negative bounds. *)
Definition in_slice (s : slice) (i : Z) : Prop := start s <= i < stop s.

(** The core region of tile [(col, row)] in an [xbs] x [ybs] grid. *)
Definition core_region_full (ip : InferenceParameters) (xbs ybs col row : Z)
    : slice * slice :=
  TileParams.get_slice_on_full_image_for_copying
    (TileParams.__init__ col row xbs ybs ip 1 QgsRectangle_null).

Definition in_core (ip : InferenceParameters) (xbs ybs col row x y : Z)
    : Prop :=
  in_slice (snd (core_region_full ip xbs ybs col row)) x /\
  in_slice (fst (core_region_full ip xbs ybs col row)) y.

(** Inclusive pixel bounds of a core region, as the source names them. *)
Definition core_xMin ip xbs ybs col row : Z :=
  start (snd (core_region_full ip xbs ybs col row)).
Definition core_xMax ip xbs ybs col row : Z :=
  stop (snd (core_region_full ip xbs ybs col row)) - 1.
Definition core_yMin ip xbs ybs col row : Z :=
  start (fst (core_region_full ip xbs ybs col row)).
Definition core_yMax ip xbs ybs col row : Z :=
  stop (fst (core_region_full ip xbs ybs col row)) - 1.

(** Size in pixels of the output covered by [n] tiles along one axis. *)
Definition grid_size_px (ip : InferenceParameters) (n : Z) : Z :=
  (n - 1) * processing_stride_px ip + tile_size_px ip.

(** One axis of [get_slice_on_full_image_for_copying]: the slice of bin
    [k] out of [n] bins, for tile size [tile] and stride [stride]. *)
Definition axis_core (tile stride n k : Z) : slice :=
  let half_overlap := (tile - stride) / 2 in
  let lo := k * stride + half_overlap in
  let hi := k * stride + tile - half_overlap - 1 in
  let lo := if k =? 0 then lo - half_overlap else lo in
  let hi := if k =? n - 1 then hi + half_overlap else hi in
  mkSlice lo (hi + 1).

(** ** Extents of the processed area *)

(** [MapProcessor.round_extent_to_rlayer_grid] (a static method). *)
Definition round_extent_to_rlayer_grid (extent : QgsRectangle)
    (rlayer : QgsRasterLayer.t) : result QgsRectangle :=
  let grid_spacing := (QgsRasterLayer.rasterUnitsPerPixelX rlayer,
                       QgsRasterLayer.rasterUnitsPerPixelY rlayer) in
  let grid_start := (xMinimum (QgsRasterLayer.extent rlayer),
                     yMinimum (QgsRasterLayer.extent rlayer)) in
  q ← py_truediv (xMinimum extent - grid_start.1) grid_spacing.1;
  let x_min := (grid_start.1 + inject_Z (py_int q) * grid_spacing.1)%Q in
  q ← py_truediv (xMaximum extent - grid_start.1) grid_spacing.1;
  let x_max := (grid_start.1 + inject_Z (py_int q) * grid_spacing.1)%Q in
  q ← py_truediv (yMinimum extent - grid_start.2) grid_spacing.2;
  let y_min := (grid_start.2 + inject_Z (py_int q) * grid_spacing.2)%Q in
  q ← py_truediv (yMaximum extent - grid_start.2) grid_spacing.2;
  let y_max := (grid_start.2 + inject_Z (py_int q) * grid_spacing.2)%Q in
  let new_extent := QgsRectangle_new x_min y_min x_max y_max in
  mret new_extent.

(** [MapProcessor._calculate_base_processing_extent_in_rlayer_crs], on
    the attributes of [self] it reads and the application state [qgis]. *)
Definition _calculate_base_processing_extent_in_rlayer_crs (qgis : Qgis)
    (rlayer : QgsRasterLayer.t) (inference_parameters : InferenceParameters)
    (map_canvas : QgsMapCanvas.t) : result QgsRectangle :=
  let rlayer_extent := QgsRasterLayer.extent rlayer in
  let processed_area_type := processed_area_type inference_parameters in
  expected_extent ←
    match processed_area_type with
    | ENTIRE_LAYER => mret rlayer_extent
    | FROM_POLYGONS =>
        let mask_layer_name := mask_layer_name inference_parameters in
        match mask_layer_name with
        | None => Raise AssertionError
        | Some mask_layer_name =>
            active_extent_in_mask_layer_crs ←
              py_getitem (mapLayersByName qgis mask_layer_name) 0;
            let active_extent :=
              QgsVectorLayer.getGeometry active_extent_in_mask_layer_crs 0 in
            let active_extent := boundingBox active_extent in
            mret (transform qgis
                    (QgsVectorLayer.sourceCrs active_extent_in_mask_layer_crs)
                    (QgsRasterLayer.crs rlayer) active_extent)
        end
    | VISIBLE_PART =>
        let active_extent_in_canvas_crs := QgsMapCanvas.extent map_canvas in
        let canvas_crs := QgsMapCanvas.destinationCrs map_canvas in
        mret (transform qgis canvas_crs (QgsRasterLayer.crs rlayer)
                active_extent_in_canvas_crs)
    | OTHER_AREA_TYPE _ => Raise (Exception "Invalid processed are type!")
    end;
  expected_extent ← round_extent_to_rlayer_grid expected_extent rlayer;
  let base_extent := intersect expected_extent rlayer_extent in
  mret base_extent.

(** The pixels to add along one axis so that the size becomes
    [N * stride + tile_size]: the [if]/[else] of
    [_calculate_extended_processing_extent], once per axis. *)
Definition missing_pixels (current_pixels tile_size_px stride_px : Z)
    : result Z :=
  if current_pixels <=? tile_size_px then
    mret (tile_size_px - current_pixels)
  else
    pixels_in_last_stride ← py_mod (current_pixels - tile_size_px) stride_px;
    py_mod (stride_px - pixels_in_last_stride) stride_px.

(** The extent after the symmetric padding and the clamp to the layer:
    the first half of [_calculate_extended_processing_extent]. *)
Definition padded_extent (inference_parameters : InferenceParameters)
    (rlayer_units_per_pixel : Q) (rlayer : QgsRasterLayer.t)
    (base_extent : QgsRectangle) : QgsRectangle :=
  let additional_pixels := processing_overlap_px inference_parameters / 2 in
  let additional_pixels_in_units :=
    (inject_Z additional_pixels * rlayer_units_per_pixel)%Q in
  let tmp_extent := QgsRectangle_new
    (xMinimum base_extent - additional_pixels_in_units)
    (yMinimum base_extent - additional_pixels_in_units)
    (xMaximum base_extent + additional_pixels_in_units)
    (yMaximum base_extent + additional_pixels_in_units) in
  intersect tmp_extent (QgsRasterLayer.extent rlayer).

(** [MapProcessor._calculate_extended_processing_extent]. *)
Definition _calculate_extended_processing_extent
    (inference_parameters : InferenceParameters) (stride_px : Z)
    (rlayer_units_per_pixel : Q) (rlayer : QgsRasterLayer.t)
    (base_extent : QgsRectangle) : result QgsRectangle :=
  let tmp_extent :=
    padded_extent inference_parameters rlayer_units_per_pixel rlayer
      base_extent in
  let tile_size_px := tile_size_px inference_parameters in
  q ← py_truediv (width tmp_extent) rlayer_units_per_pixel;
  let current_x_pixels := py_round q in
  missing_pixels_x ← missing_pixels current_x_pixels tile_size_px stride_px;
  q ← py_truediv (height tmp_extent) rlayer_units_per_pixel;
  let current_y_pixels := py_round q in
  missing_pixels_y ← missing_pixels current_y_pixels tile_size_px stride_px;
  let missing_pixels_x_in_units :=
    (inject_Z missing_pixels_x * rlayer_units_per_pixel)%Q in
  let missing_pixels_y_in_units :=
    (inject_Z missing_pixels_y * rlayer_units_per_pixel)%Q in
  let tmp_extent :=
    setXMaximum tmp_extent (xMaximum tmp_extent + missing_pixels_x_in_units) in
  let tmp_extent :=
    setYMaximum tmp_extent (yMaximum tmp_extent + missing_pixels_y_in_units) in
  let extended_extent := tmp_extent in
  mret extended_extent.

(** [round(extent_size / units_per_pixel)]: a size in whole pixels, as
    [__init__] and [_calculate_extended_processing_extent] compute it. *)
Definition size_px (size_in_units units_per_pixel : Q) : result Z :=
  q ← py_truediv size_in_units units_per_pixel;
  mret (py_round q).

(** The snapped bound the code computes, and the one a floor division
    would give. *)
Definition snap_trunc (origin spacing b : Q) : Q :=
  (origin + inject_Z (py_int ((b - origin) / spacing)) * spacing)%Q.
Definition snap_floor (origin spacing b : Q) : Q :=
  (origin + inject_Z (Qfloor ((b - origin) / spacing)) * spacing)%Q.

Definition example_params : InferenceParameters :=
  mkParams 1 64 16 48 ENTIRE_LAYER None 0.

(** A raster of 10 x 10 units with pixels of one unit, and one of
    2.5 x 2.5 units with pixels of half a unit (5 x 5 pixels). *)
Definition example_crs : QgsCoordinateReferenceSystem :=
  mkCrs "EPSG:2180" DistanceMeters.
Definition unit_raster : QgsRasterLayer.t :=
  QgsRasterLayer.mk (mkRect 0 0 10 10) 1 1 example_crs.
Definition half_unit_raster : QgsRasterLayer.t :=
  QgsRasterLayer.mk (mkRect 0 0 (5 # 2) (5 # 2)) (1 # 2) (1 # 2) example_crs.

(** Tiles of 5 pixels, no overlap, processed at one unit per pixel. *)
Definition five_px_params : InferenceParameters :=
  mkParams 1 5 0 5 ENTIRE_LAYER None 0.

(** An application with no vector layer loaded and reference systems
    that all agree, and a canvas showing the unit square. *)
Definition empty_project : Qgis := mkQgis (fun _ => []) (fun _ _ r => r).
Definition example_canvas : QgsMapCanvas.t :=
  QgsMapCanvas.mk (mkRect 0 0 1 1) example_crs.

(** A mask geometry is supplied when [mask_layer_name] is a name under
    which the project holds a layer: the [assert] rejects a missing name and
    the lookup [mapLayersByName(name)[0]] a name without layer. *)
Definition mask_reference_supplied (qgis : Qgis) (ip : InferenceParameters)
    : Prop :=
  exists name, mask_layer_name ip = Some name /\ mapLayersByName qgis name <> [].

(** The exceptions of the base extent computation that the design files
    under its invalid-area error: the failed [assert] and the failed layer
    lookup (missing or bad mask reference) and the final [raise]
    (unsupported mode). *)
Definition InvalidAreaError (e : py_exn) : Prop :=
  e = AssertionError \/ e = IndexError \/
  e = Exception "Invalid processed are type!".

Definition from_polygons_params (name : option string) : InferenceParameters :=
  mkParams 1 64 16 48 FROM_POLYGONS name 0.

(** ** numpy arrays in a store *)

(** A buffer: the shape and the cells, addressed by index lists. *)
Record ndbuf := mkBuf {
  shape : list Z;
  data : list Z -> Z
}.

(** An array value is a reference: to a whole buffer, or the view
    [a[:, :, k]] of a three-dimensional one.  Views share the buffer. *)
Inductive ndarray :=
  | Whole (l : nat)
  | Channel (l : nat) (k : Z).

Definition buffer_of (a : ndarray) : nat :=
  match a with
  | Whole l => l
  | Channel l _ => l
  end.

(** The index in the buffer of the cell [idx] of the array. *)
Definition view_index (a : ndarray) (idx : list Z) : list Z :=
  match a with
  | Whole _ => idx
  | Channel _ k => idx ++ [k]
  end.

Definition view_shape (a : ndarray) (b : ndbuf) : list Z :=
  match a with
  | Whole _ => shape b
  | Channel _ _ => removelast (shape b)
  end.

(** What a call can observe and change: the buffers, and how often the
    neural network has been run. *)
Record world := mkWorld {
  heap : gmap nat ndbuf;
  model_calls : nat
}.

(** A statement either falls through to the next one, returns from the
    function, or raises. *)
Inductive completion (R A : Type) :=
  | Next (a : A)
  | Return (r : R)
  | Raised (e : py_exn).
Arguments Next {R A} a.
Arguments Return {R A} r.
Arguments Raised {R A} e.

Definition M (St R A : Type) : Type := St -> completion R A * St.

Definition next {St R A} (a : A) : M St R A := fun w => (Next a, w).
Definition return_ {St R} (r : R) : M St R unit := fun w => (Return r, w).
Definition raise {St R A} (e : py_exn) : M St R A := fun w => (Raised e, w).

Definition seq_ {St R A B} (m : M St R A) (f : A -> M St R B) : M St R B :=
  fun w =>
  match m w with
  | (Next a, w') => f a w'
  | (Return r, w') => (Return r, w')
  | (Raised e, w') => (Raised e, w')
  end.

Notation "'let*' x := m 'in' k" := (seq_ m (fun x => k))
  (at level 10, x name, m at level 100, k at level 200).
Notation "m ;;; k" := (seq_ m (fun _ => k))
  (at level 100, k at level 200, right associativity).

(** The cells of an array, read through the store. *)
Definition read (w : world) (a : ndarray) (idx : list Z) : option Z :=
  b ← heap w !! buffer_of a;
  Some (data b (view_index a idx)).

(** [copy.copy(a)]: a new array with its own buffer, holding the cells of
    [a]. *)
Definition copy_copy {R} (a : ndarray) : M world R ndarray := fun w =>
  match heap w !! buffer_of a with
  | None => (Raised (Exception "dangling array reference"), w)
  | Some b =>
      let l := fresh (dom (heap w)) in
      let b' := mkBuf (view_shape a b) (fun idx => data b (view_index a idx)) in
      (Next (Whole l), mkWorld (<[l := b']> (heap w)) (model_calls w))
  end.

(** [a[:, :, k]]: a view on the same buffer; numpy refuses an index out
    of the last axis and more indices than axes. *)
Definition getitem_channel {R} (a : ndarray) (k : Z) : M world R ndarray := fun w =>
  match a, heap w !! buffer_of a with
  | Whole l, Some b =>
      match shape b with
      | [_; _; c] =>
          let k' := if k <? 0 then k + c else k in
          if (0 <=? k') && (k' <? c) then (Next (Channel l k'), w)
          else (Raised IndexError, w)
      | _ => (Raised IndexError, w)
      end
  | _, _ => (Raised IndexError, w)
  end.

(** [a < v] and [a >= v]: a fresh boolean array, cell by cell. *)
Definition lt_scalar {R} (a : ndarray) (v : Z) : M world R (list Z -> bool) :=
  fun w =>
  match heap w !! buffer_of a with
  | None => (Raised (Exception "dangling array reference"), w)
  | Some b => (Next (fun idx => data b (view_index a idx) <? v), w)
  end.

Definition ge_scalar {R} (a : ndarray) (v : Z) : M world R (list Z -> bool) :=
  fun w =>
  match heap w !! buffer_of a with
  | None => (Raised (Exception "dangling array reference"), w)
  | Some b => (Next (fun idx => data b (view_index a idx) >=? v), w)
  end.

(** The cell of the array that a buffer index belongs to, if any. *)
Definition array_index (a : ndarray) (bidx : list Z) : option (list Z) :=
  match a with
  | Whole _ => Some bidx
  | Channel _ k =>
      match bidx with
      | [i; j; c] => if c =? k then Some [i; j] else None
      | _ => None
      end
  end.

(** [a[mask] = v]: writes [v], in place, to the cells of [a] selected by
    the boolean array; the write goes through a view to its buffer. *)
Definition setitem_mask {R} (a : ndarray) (mask : list Z -> bool) (v : Z)
    : M world R unit := fun w =>
  match heap w !! buffer_of a with
  | None => (Raised (Exception "dangling array reference"), w)
  | Some b =>
      let cells := fun bidx =>
        match array_index a bidx with
        | Some idx => if mask idx then v else data b bidx
        | None => data b bidx
        end in
      (Next tt,
       mkWorld (<[buffer_of a := mkBuf (shape b) cells]> (heap w))
               (model_calls w))
  end.

(** The loaded network: [ModelWrapper.process] runs the ONNX session on
    an image, which this development does not look into. *)
Definition ModelWrapper : Type :=
  ndarray -> world -> completion ndarray ndarray * world.

(** [self.model_wrapper.process(img)], counted. *)
Definition ModelWrapper_process (model_wrapper : ModelWrapper)
    (img : ndarray) : M world ndarray ndarray := fun w =>
  match model_wrapper img (mkWorld (heap w) (S (model_calls w))) with
  | (Return r, w') => (Next r, w')
  | other => other
  end.

(** [MapProcessor._process_tile]. *)
Definition _process_tile (model_wrapper : ModelWrapper) (tile_img : ndarray)
    : M world ndarray unit :=
  let* tile_img := copy_copy tile_img in
  let* tile_img := getitem_channel tile_img 0 in
  let* mask := lt_scalar tile_img 255 in
  setitem_mask tile_img mask 0 ;;;
  let* mask := ge_scalar tile_img 255 in
  setitem_mask tile_img mask 255 ;;;
  let result := tile_img in
  return_ result ;;;
  let* result := ModelWrapper_process model_wrapper tile_img in
  return_ result.

(** A three-dimensional buffer from nested lists (rows of pixels of
    channel values). *)
Definition ndbuf_of_lists (rows : list (list (list Z))) : ndbuf :=
  let h := Z.of_nat (length rows) in
  let w := Z.of_nat (length (hd [] rows)) in
  let c := Z.of_nat (length (hd [] (hd [] rows))) in
  mkBuf [h; w; c]
    (fun idx =>
       match idx with
       | [i; j; k] =>
           nth (Z.to_nat k) (nth (Z.to_nat j) (nth (Z.to_nat i) rows []) []) 0
       | _ => 0
       end).

(** The cells of a two-dimensional array as nested lists. *)
Definition to_lists (w : world) (a : ndarray) (h c : nat)
    : list (list (option Z)) :=
  map (fun i => map (fun j => read w a [Z.of_nat i; Z.of_nat j]) (seq 0 c))
      (seq 0 h).

(** A 2 x 2 RGB image, stored at location 0, and a network that would
    return its input. *)
Definition example_tile : ndbuf :=
  ndbuf_of_lists [[[255; 0; 0]; [254; 255; 255]];
                  [[0; 7; 7]; [255; 255; 255]]].
Definition example_world : world := mkWorld {[ 0%nat := example_tile ]} 0.
Definition identity_model : ModelWrapper := fun img w => (Return img, w).

(** ** From contours to polygon features *)

Record QgsPointXY := mkPoint { point_x : Q; point_y : Q }.

(** A contour after the coordinate transform: a list of points. *)
Definition contour : Type := list QgsPointXY.

(** A row of the hierarchy array of [cv2.findContours]:
    [[next, previous, first_child, parent]], with [-1] for none. *)
Definition hierarchy_row : Type := (Z * Z * Z * Z)%type.
Definition row0 (r : hierarchy_row) : Z := r.1.1.1.
Definition row2 (r : hierarchy_row) : Z := r.1.2.

(** A feature holds the rings given to [QgsGeometry.fromPolygonXY]: the
    outer ring first, then the holes. *)
Record QgsFeature := mkFeature { polygon_xy_vec_vec : list contour }.

Definition outer_ring (f : QgsFeature) : option contour :=
  head (polygon_xy_vec_vec f).
Definition hole_rings (f : QgsFeature) : list contour :=
  tail (polygon_xy_vec_vec f).

(** A run of code that recurses and loops: finished, failed with an
    exception, or cut off. *)
Inductive run (A : Type) :=
  | Done (a : A)
  | Failed (e : py_exn)
  | OutOfFuel.
Arguments Done {A} a.
Arguments Failed {A} e.
Arguments OutOfFuel {A}.

#[global] Instance run_ret : MRet run := fun A a => Done a.
#[global] Instance run_bind : MBind run := fun A B f m =>
  match m with
  | Done a => f a
  | Failed e => Failed e
  | OutOfFuel => OutOfFuel
  end.

Definition run_of_result {A} (r : result A) : run A :=
  match r with
  | Ok a => Done a
  | Raise e => Failed e
  end.

(** [MapProcessor._convert_cv_contours_to_features].  The two lists the
    Python code appends to, [features] and [current_holes], are threaded
    through and returned; [fuel] bounds the depth of calls and loop
    turns.  [convert_while] is the [while True] loop. *)
Fixpoint _convert_cv_contours_to_features (fuel : nat)
    (features : list QgsFeature) (cv_contours : list contour)
    (hierarchy : list hierarchy_row) (current_contour_index : Z)
    (is_hole : bool) (current_holes : list contour)
    {struct fuel} : run (list QgsFeature * list contour) :=
  match fuel with
  | O => OutOfFuel
  | S fuel =>
      if current_contour_index =? -1 then mret (features, current_holes)
      else convert_while fuel features cv_contours hierarchy
             current_contour_index is_hole current_holes
  end
with convert_while (fuel : nat)
    (features : list QgsFeature) (cv_contours : list contour)
    (hierarchy : list hierarchy_row) (current_contour_index : Z)
    (is_hole : bool) (current_holes : list contour)
    {struct fuel} : run (list QgsFeature * list contour) :=
  match fuel with
  | O => OutOfFuel
  | S fuel =>
      contour ← run_of_result (py_getitem cv_contours current_contour_index);
      '(features, current_holes) ←
        (if 3 <=? Z.of_nat (length contour) then
           row ← run_of_result (py_getitem hierarchy current_contour_index);
           let first_child := row2 row in
           '(features, internal_holes) ←
             _convert_cv_contours_to_features fuel features cv_contours
               hierarchy first_child (negb is_hole) [];
           if is_hole then mret (features, current_holes ++ [contour])
           else
             let feature := mkFeature (contour :: internal_holes) in
             mret (features ++ [feature], current_holes)
         else mret (features, current_holes));
      row ← run_of_result (py_getitem hierarchy current_contour_index);
      let current_contour_index := row0 row in
      if current_contour_index =? -1 then mret (features, current_holes)
      else convert_while fuel features cv_contours hierarchy
             current_contour_index is_hole current_holes
  end.

(** [MapProcessor.transform_contours_yx_pixels_to_target_crs], on the
    two attributes of [self] it reads. *)
Definition transform_contours_yx_pixels_to_target_crs
    (extended_extent : QgsRectangle) (rlayer_units_per_pixel : Q)
    (polygons : list (list (Z * Z))) : list contour :=
  let x_left := xMinimum extended_extent in
  let y_upper := yMaximum extended_extent in
  map (fun polygon =>
         map (fun yx_px : Z * Z =>
                let x_crs :=
                  (inject_Z yx_px.1 * rlayer_units_per_pixel + x_left)%Q in
                let y_crs :=
                  (- (inject_Z yx_px.2 * rlayer_units_per_pixel - y_upper))%Q in
                mkPoint x_crs y_crs)
             polygon)
      polygons.

(** The features that [MapProcessor._create_vlayer_from_mask] hands to
    the new vector layer, from what [cv2.findContours] returned for the
    mask. *)
Definition _create_vlayer_from_mask (fuel : nat)
    (extended_extent : QgsRectangle) (rlayer_units_per_pixel : Q)
    (found : list (list (Z * Z)) * list hierarchy_row)
    : run (list QgsFeature) :=
  let '(contours, hierarchy) := found in
  let contours :=
    transform_contours_yx_pixels_to_target_crs extended_extent
      rlayer_units_per_pixel contours in
  let features := [] in
  if negb (length contours =? 0)%nat then
    '(features, _) ←
      _convert_cv_contours_to_features fuel features contours hierarchy
        0 false [];
    mret features
  else mret features.

(** *** The contour tree, in the words of the specification *)

(** A contour with the contours nested directly inside it. *)
Inductive ctree := CNode (ring : contour) (children : list ctree).

Definition ring_of (t : ctree) : contour :=
  match t with CNode ring _ => ring end.
Definition children_of (t : ctree) : list ctree :=
  match t with CNode _ children => children end.

(** The chain of siblings that starts at index [i] of the arrays spells
    out the forest: [next] links the siblings, [first_child] the nested
    contours. *)
Inductive represents (cv_contours : list contour)
    (hierarchy : list hierarchy_row) : Z -> list ctree -> Prop :=
  | represents_none : represents cv_contours hierarchy (-1) []
  | represents_node i ring row children siblings :
      0 <= i ->
      cv_contours !! Z.to_nat i = Some ring ->
      hierarchy !! Z.to_nat i = Some row ->
      represents cv_contours hierarchy (row2 row) children ->
      represents cv_contours hierarchy (row0 row) siblings ->
      represents cv_contours hierarchy i (CNode ring children :: siblings).

Definition degenerate (ring : contour) : bool :=
  Z.of_nat (length ring) <? 3.

(** The rings of the contours of a forest that have at least 3 points. *)
Definition rings_of (forest : list ctree) : list contour :=
  map ring_of (filter (fun t => negb (degenerate (ring_of t))) forest).

(** One polygon per contour at even depth with at least 3 points, its
    holes being its children with at least 3 points; the contours nested
    in a hole are at even depth again; a contour with fewer than 3 points
    is skipped with all that is nested in it. *)
Fixpoint polygons_of (t : ctree) : list QgsFeature :=
  match t with
  | CNode ring children =>
      if degenerate ring then []
      else
        mkFeature (ring :: rings_of children)
        :: flat_map (fun hole =>
                       match hole with
                       | CNode hole_ring nested =>
                           if degenerate hole_ring then []
                           else flat_map polygons_of nested
                       end)
                    children
  end.

Definition polygons_at_even_depth (forest : list ctree) : list QgsFeature :=
  flat_map polygons_of forest.

(** The polygons found below a forest of holes (odd depth). *)
Definition polygons_below_holes (forest : list ctree) : list QgsFeature :=
  flat_map (fun hole =>
              if degenerate (ring_of hole) then []
              else polygons_at_even_depth (children_of hole))
           forest.

(** A square and a smaller square inside it, as traced contours, and the
    hierarchy of an outer contour with one nested contour. *)
Definition square_px : list (Z * Z) := [(0, 0); (0, 9); (9, 9); (9, 0)].
Definition inner_square_px : list (Z * Z) := [(3, 2); (2, 3); (2, 6); (3, 7);
                                              (6, 7); (7, 6); (7, 3); (6, 2)].
Definition one_hole_hierarchy : list hierarchy_row :=
  [(-1, -1, 1, -1); (-1, -1, -1, 0)].

(** The features in the order in which the code appends them: those
    nested inside a contour before the contour itself. *)
Fixpoint emitted (is_hole : bool) (t : ctree) : list QgsFeature :=
  match t with
  | CNode ring children =>
      if degenerate ring then []
      else flat_map (emitted (negb is_hole)) children
           ++ (if is_hole then [] else [mkFeature (ring :: rings_of children)])
  end.

(** ** Two-dimensional arrays as values *)

(** The mask of a tile and the full result image: shape and cells. *)
Record ndarray2 := mkArr2 {
  nrows : Z;
  ncols : Z;
  cell : Z -> Z -> Z
}.

(** [np.zeros((rows, cols), np.uint8)]; numpy refuses negative sizes. *)
Definition np_zeros (shape2 : Z * Z) : result ndarray2 :=
  if (shape2.1 <? 0) || (shape2.2 <? 0) then Raise ValueError
  else Ok (mkArr2 shape2.1 shape2.2 (fun _ _ => 0)).

(** [slice.indices(len)] for a step of 1: negative bounds count from the
    end, and both bounds are clipped to the axis. *)
Definition slice_indices (s : slice) (len : Z) : Z * Z :=
  let clip := fun v => if v <? 0 then Z.max (v + len) 0 else Z.min v len in
  (clip (start s), clip (stop s)).

Definition slice_length (s : slice) (len : Z) : Z :=
  Z.max 0 ((slice_indices s len).2 - (slice_indices s len).1).

(** [a[rows, cols]] with two slices: the selected block. *)
Definition getitem2 (a : ndarray2) (roi : slice * slice) : ndarray2 :=
  let y0 := (slice_indices roi.1 (nrows a)).1 in
  let x0 := (slice_indices roi.2 (ncols a)).1 in
  mkArr2 (slice_length roi.1 (nrows a)) (slice_length roi.2 (ncols a))
         (fun i j => cell a (y0 + i) (x0 + j)).

(** numpy broadcasts a value to the selected block when, on each axis,
    the sizes agree or the value has size 1. *)
Definition broadcastable (v : ndarray2) (rows cols : Z) : bool :=
  ((nrows v =? rows) || (nrows v =? 1)) &&
  ((ncols v =? cols) || (ncols v =? 1)).

(** [a[rows, cols] = v]: the shapes are checked before any cell is
    written. *)
Definition setitem2 (a : ndarray2) (roi : slice * slice) (v : ndarray2)
    : result ndarray2 :=
  let y0 := (slice_indices roi.1 (nrows a)).1 in
  let x0 := (slice_indices roi.2 (ncols a)).1 in
  let rows := slice_length roi.1 (nrows a) in
  let cols := slice_length roi.2 (ncols a) in
  if broadcastable v rows cols then
    Ok (mkArr2 (nrows a) (ncols a)
          (fun i j =>
             if (y0 <=? i) && (i <? y0 + rows) && (x0 <=? j) && (j <? x0 + cols)
             then cell v (if nrows v =? 1 then 0 else i - y0)
                         (if ncols v =? 1 then 0 else j - x0)
             else cell a i j))
  else Raise ValueError.

Definition array_of_lists (rows : list (list Z)) : ndarray2 :=
  mkArr2 (Z.of_nat (length rows)) (Z.of_nat (length (hd [] rows)))
         (fun i j => nth (Z.to_nat j) (nth (Z.to_nat i) rows []) 0).

Definition lists_of_array (a : ndarray2) : list (list Z) :=
  map (fun i => map (fun j => cell a (Z.of_nat i) (Z.of_nat j))
                    (seq 0 (Z.to_nat (ncols a))))
      (seq 0 (Z.to_nat (nrows a))).

(** ** MapProcessor *)

(** [MapProcessor.convert_meters_to_rlayer_units]. *)
Definition convert_meters_to_rlayer_units (rlayer : QgsRasterLayer.t)
    (distance_m : Q) : result Q :=
  match mapUnits (QgsRasterLayer.crs rlayer) with
  | DistanceMeters => Ok distance_m
  | _ => Raise (Exception "Unsupported layer units")
  end.

(** [round((img_size - tile_size_px) / stride_px) + 1]: the number of
    tiles along one axis, as [__init__] computes it for x and for y. *)
Definition bins_number (img_size_pixels tile_size_px stride_px : Z)
    : result Z :=
  q ← py_truediv (inject_Z (img_size_pixels - tile_size_px))
                 (inject_Z stride_px);
  mret (py_round q + 1).

Module MapProcessor.
Record t := mk {
  rlayer : QgsRasterLayer.t;
  inference_parameters : InferenceParameters;
  stride_px : Z;
  rlayer_units_per_pixel : Q;
  base_extent : QgsRectangle;
  extended_extent : QgsRectangle;
  img_size_x_pixels : Z;
  img_size_y_pixels : Z;
  x_bins_number : Z;
  y_bins_number : Z;
  model_wrapper : ModelWrapper
}.

(** [__init__]; [loaded_model] stands for the ONNX session that
    [ModelWrapper(model_file_path)] opens. *)
Definition __init__ (qgis : Qgis) (loaded_model : ModelWrapper)
    (rlayer : QgsRasterLayer.t) (map_canvas : QgsMapCanvas.t)
    (inference_parameters : InferenceParameters) : result t :=
  let stride_px := processing_stride_px inference_parameters in
  rlayer_units_per_pixel ←
    convert_meters_to_rlayer_units rlayer
      (resolution_m_per_px inference_parameters);
  base_extent ←
    _calculate_base_processing_extent_in_rlayer_crs qgis rlayer
      inference_parameters map_canvas;
  extended_extent ←
    _calculate_extended_processing_extent inference_parameters stride_px
      rlayer_units_per_pixel rlayer base_extent;
  img_size_x_pixels ← size_px (width extended_extent) rlayer_units_per_pixel;
  img_size_y_pixels ← size_px (height extended_extent) rlayer_units_per_pixel;
  x_bins_number ←
    bins_number img_size_x_pixels (tile_size_px inference_parameters)
      stride_px;
  y_bins_number ←
    bins_number img_size_y_pixels (tile_size_px inference_parameters)
      stride_px;
  mret (mk rlayer inference_parameters stride_px rlayer_units_per_pixel
           base_extent extended_extent img_size_x_pixels img_size_y_pixels
           x_bins_number y_bins_number loaded_model).
End MapProcessor.

(** ** The stitching loop *)

(** What a run of [_process] does that can be seen from outside, in the
    order it happens: the polls of [isCanceled], the calls of
    [setProgress], and for each tile (numbered [tile_no]) the calls of
    [_get_image], [_process_tile] and [_set_mask_on_full_img] that
    returned; at the end the hand-over of the mask to
    [_create_vlayer_from_mask]. *)
Inductive event :=
  | IsCanceled (answer : bool)
  | SetProgress (progress : Q)
  | GetImage (tile_no : Z)
  | ProcessTile (tile_no : Z)
  | SetMaskOnFullImg (tile_no : Z)
  | CreateVlayer.

Record stitching := mkStitching {
  full_result_img : ndarray2;
  polls : nat;
  log : list event
}.

Definition emit {R} (e : event) : M stitching R unit := fun st =>
  (Next tt, mkStitching (full_result_img st) (polls st) (log st ++ [e])).

(** A fallible pure step inside the loop. *)
Definition lift {R A} (r : result A) : M stitching R A := fun st =>
  match r with
  | Ok a => (Next a, st)
  | Raise e => (Raised e, st)
  end.

(** [for x in l: body]. *)
Fixpoint for_each {St R I} (l : list I) (body : I -> M St R unit)
    : M St R unit :=
  match l with
  | [] => next tt
  | i :: l' => body i ;;; for_each l' body
  end.

(** [range(n)]. *)
Definition range (n : Z) : list Z := map Z.of_nat (seq 0 (Z.to_nat n)).

Inductive MorphOp := MORPH_OPEN | MORPH_CLOSE.

(** [MapProcessor._set_mask_on_full_img]: the block copy, in place on the
    full result image. *)
Definition _set_mask_on_full_img {R} (tile_result : ndarray2)
    (tile_params : TileParams.t) : M stitching R unit := fun st =>
  let roi_slice_on_full_image :=
    TileParams.get_slice_on_full_image_for_copying tile_params in
  let roi_slice_on_tile_image :=
    TileParams.get_slice_on_tile_image_for_copying tile_params
      (Some roi_slice_on_full_image) in
  match setitem2 (full_result_img st) roi_slice_on_full_image
                 (getitem2 tile_result roi_slice_on_tile_image) with
  | Ok img => (Next tt, mkStitching img (polls st) (log st))
  | Raise e => (Raised e, st)
  end.

Section Stitcher.
(** The collaborators of the loop: the cancellation flag as the task
    answers it at each poll, the raster read of [_get_image], the
    prediction as the loop sees it (an image in, a mask out), and
    OpenCV's [morphologyEx] with a square kernel of the given side. *)
Context {image : Type}.
Variable isCanceled : nat -> bool.
Variable _get_image :
  QgsRasterLayer.t -> QgsRectangle -> InferenceParameters -> result image.
Variable process_tile : image -> result ndarray2.
Variable morphologyEx : MorphOp -> Z -> ndarray2 -> ndarray2.

(** [MapProcessor._erode_dilate_image]. *)
Definition _erode_dilate_image (self : MapProcessor.t) (img : ndarray2)
    : ndarray2 :=
  let v := postprocessing_dilate_erode_size
             (MapProcessor.inference_parameters self) in
  if negb (v =? 0) then
    let size := (v / 2) ^ 2 + 1 in
    let img := morphologyEx MORPH_OPEN size img in
    let img := morphologyEx MORPH_CLOSE size img in
    img
  else img.

(** One turn of the inner loop of [_process]. *)
Definition process_one_tile (self : MapProcessor.t) (total_tiles : Z)
    (y_bin_number x_bin_number : Z) : M stitching bool unit :=
  let* canceled :=
    (fun st => (Next (isCanceled (polls st)),
                mkStitching (full_result_img st) (S (polls st))
                            (log st ++ [IsCanceled (isCanceled (polls st))])))
  in
  (if canceled : bool then return_ false else next tt) ;;;
  let tile_no :=
    y_bin_number * MapProcessor.x_bins_number self + x_bin_number in
  let* q := lift (py_truediv (inject_Z tile_no) (inject_Z total_tiles)) in
  let progress := (q * 100)%Q in
  emit (SetProgress progress) ;;;
  let tile_params :=
    TileParams.__init__ x_bin_number y_bin_number
      (MapProcessor.x_bins_number self) (MapProcessor.y_bins_number self)
      (MapProcessor.inference_parameters self)
      (MapProcessor.rlayer_units_per_pixel self)
      (MapProcessor.extended_extent self) in
  let* tile_img :=
    lift (_get_image (MapProcessor.rlayer self) (TileParams.extent tile_params)
            (MapProcessor.inference_parameters self)) in
  emit (GetImage tile_no) ;;;
  let* tile_result := lift (process_tile tile_img) in
  emit (ProcessTile tile_no) ;;;
  _set_mask_on_full_img tile_result tile_params ;;;
  emit (SetMaskOnFullImg tile_no).

(** [MapProcessor._process]. *)
Definition _process (self : MapProcessor.t) : M stitching bool unit :=
  let total_tiles :=
    MapProcessor.x_bins_number self * MapProcessor.y_bins_number self in
  let final_shape_px :=
    (MapProcessor.img_size_y_pixels self, MapProcessor.img_size_x_pixels self)
  in
  let* zeros := lift (np_zeros final_shape_px) in
  (fun st => (Next tt, mkStitching zeros (polls st) (log st))) ;;;
  (if total_tiles <? 1
   then raise (Exception "TODO! Add support for partial tiles!")
   else next tt) ;;;
  for_each (range (MapProcessor.y_bins_number self)) (fun y_bin_number =>
    for_each (range (MapProcessor.x_bins_number self)) (fun x_bin_number =>
      process_one_tile self total_tiles y_bin_number x_bin_number)) ;;;
  (fun st => (Next tt,
              mkStitching (_erode_dilate_image self (full_result_img st))
                          (polls st) (log st))) ;;;
  emit CreateVlayer ;;;
  return_ true.
End Stitcher.

(** The progress values reported during a run, in order. *)
Definition reported (l : list event) : list Q :=
  omap (fun e => match e with SetProgress p => Some p | _ => None end) l.

(** [tile_no / total_tiles * 100]. *)
Definition progress_of (total_tiles tile_no : Z) : Q :=
  (inject_Z tile_no / inject_Z total_tiles * 100)%Q.

Definition non_decreasing (l : list Q) : Prop :=
  forall (i j : nat) (a b : Q),
    (i <= j)%nat -> l !! i = Some a -> l !! j = Some b -> (a <= b)%Q.

(** The events of a tile processed to the end. *)
Definition tile_events (total_tiles tile_no : Z) : list event :=
  [IsCanceled false; SetProgress (progress_of total_tiles tile_no);
   GetImage tile_no; ProcessTile tile_no; SetMaskOnFullImg tile_no].

Definition empty_stitching : stitching :=
  mkStitching (mkArr2 0 0 (fun _ _ => 0)) 0 [].

(** The events of the tile numbered [tile_no] when the run stops in
    it (cancelled, or an exception in one of the three calls). *)
Definition stopped_tile_events (total_tiles tile_no : Z) : list (list event) :=
  let p := SetProgress (progress_of total_tiles tile_no) in
  [[IsCanceled true];
   [IsCanceled false; p];
   [IsCanceled false; p; GetImage tile_no];
   [IsCanceled false; p; GetImage tile_no; ProcessTile tile_no]].

(** What the log holds after the copy of tile [tile_no]. *)
Fixpoint after_copy (tile_no : Z) (l : list event) : list event :=
  match l with
  | [] => []
  | SetMaskOnFullImg k :: l' =>
      if k =? tile_no then l' else after_copy tile_no l'
  | _ :: l' => after_copy tile_no l'
  end.

(** A raster of 2 x 2 pixels processed as one tile of 2 pixels; a raster
    read that always succeeds; a predictor whose mask is 3 x 3, all 255;
    no morphological filter. *)
Definition small_raster : QgsRasterLayer.t :=
  QgsRasterLayer.mk (mkRect 0 0 2 2) 1 1 example_crs.
Definition two_px_params : InferenceParameters :=
  mkParams 1 2 0 2 ENTIRE_LAYER None 0.
Definition never_canceled : nat -> bool := fun _ => false.
Definition any_image :
    QgsRasterLayer.t -> QgsRectangle -> InferenceParameters -> result unit :=
  fun _ _ _ => Ok tt.
Definition big_mask : ndarray2 := mkArr2 3 3 (fun _ _ => 255).
Definition predict_big_mask : unit -> result ndarray2 := fun _ => Ok big_mask.
Definition no_morphology : MorphOp -> Z -> ndarray2 -> ndarray2 :=
  fun _ _ img => img.


(** A raster of 7 x 7 pixels of half a unit, processed at one unit per
    pixel with tiles of 5 pixels and a stride of 1. *)
Definition seven_px_raster : QgsRasterLayer.t :=
  QgsRasterLayer.mk (mkRect 0 0 (7 # 2) (7 # 2)) (1 # 2) (1 # 2) example_crs.
Definition stride_one_params : InferenceParameters :=
  mkParams 1 5 4 1 ENTIRE_LAYER None 0.

(** The processor of [small_raster]: an image of 2 x 2 pixels, one tile. *)
Definition small_processor : MapProcessor.t :=
  MapProcessor.mk small_raster two_px_params 2 1 (mkRect 0 0 2 2)
    (mkRect 0 0 2 2) 2 2 1 1 identity_model.

(** Two rectangles with equal coordinates (as numbers). *)
Definition rect_eq (a b : QgsRectangle) : Prop :=
  (xMinimum a == xMinimum b)%Q /\ (yMinimum a == yMinimum b)%Q /\
  (xMaximum a == xMaximum b)%Q /\ (yMaximum a == yMaximum b)%Q.

(** * Properties *)

(** ** Core regions tile the output image *)

Section CoreRegions.
Variable ip : InferenceParameters.
Variables xbs ybs : Z.

Let tile := tile_size_px ip.
Let stride := processing_stride_px ip.

Hypothesis tile_pos : 0 < tile.
Hypothesis stride_pos : 0 < stride.
Hypothesis stride_le_tile : stride <= tile.
Hypothesis overlap_even : Z.even (tile - stride) = true.
Hypothesis xbs_pos : 1 <= xbs.
Hypothesis ybs_pos : 1 <= ybs.

Lemma half_overlap_twice : 2 * ((tile - stride) / 2) = tile - stride.
Proof.
  apply Z.even_spec in overlap_even. destruct overlap_even as [k Hk].
  rewrite Hk. rewrite (Z.mul_comm 2 k), Z.div_mul by lia. lia.
Qed.

Lemma core_columns col row :
  snd (core_region_full ip xbs ybs col row) = axis_core tile stride xbs col.
Proof. reflexivity. Qed.

Lemma core_rows col row :
  fst (core_region_full ip xbs ybs col row) = axis_core tile stride ybs row.
Proof. reflexivity. Qed.

Section Axis.
Variable n : Z.
Hypothesis n_pos : 1 <= n.

Lemma axis_core_bounds k :
  0 <= k < n ->
  0 <= start (axis_core tile stride n k) /\
  start (axis_core tile stride n k) < stop (axis_core tile stride n k) /\
  stop (axis_core tile stride n k) <= (n - 1) * stride + tile.
Proof.
  intros Hk. pose proof half_overlap_twice as H2.
  unfold axis_core; cbn [start stop].
  destruct (Z.eqb_spec k 0), (Z.eqb_spec k (n - 1)); nia.
Qed.

Lemma axis_core_ordered k k' :
  0 <= k -> k < k' -> k' < n ->
  stop (axis_core tile stride n k) <= start (axis_core tile stride n k').
Proof.
  intros Hk Hlt Hk'. pose proof half_overlap_twice as H2.
  unfold axis_core; cbn [start stop].
  destruct (Z.eqb_spec k 0), (Z.eqb_spec k (n - 1)),
    (Z.eqb_spec k' 0); try lia; nia.
Qed.

Lemma axis_core_contiguous k :
  0 <= k -> k + 1 < n ->
  stop (axis_core tile stride n k) = start (axis_core tile stride n (k + 1)).
Proof.
  intros Hk Hlt. pose proof half_overlap_twice as H2.
  unfold axis_core; cbn [start stop].
  destruct (Z.eqb_spec k 0), (Z.eqb_spec k (n - 1)),
    (Z.eqb_spec (k + 1) 0); try lia; nia.
Qed.

Lemma axis_core_unique k k' i :
  0 <= k < n -> 0 <= k' < n ->
  in_slice (axis_core tile stride n k) i -> in_slice (axis_core tile stride n k') i ->
  k = k'.
Proof.
  intros Hk Hk' [Ha Hb] [Hc Hd].
  destruct (Z.lt_trichotomy k k') as [Hlt | [Heq | Hgt]]; [|exact Heq|].
  - pose proof (axis_core_ordered k k' ltac:(lia) Hlt ltac:(lia)). lia.
  - pose proof (axis_core_ordered k' k ltac:(lia) Hgt ltac:(lia)). lia.
Qed.

Lemma axis_core_cover i :
  0 <= i < (n - 1) * stride + tile ->
  exists k, 0 <= k < n /\ in_slice (axis_core tile stride n k) i.
Proof.
  intros Hi. pose proof half_overlap_twice as H2.
  set (h := (tile - stride) / 2) in *.
  destruct (Z_lt_ge_dec i (stride + h)) as [Hsmall | Hbig].
  - exists 0. split; [lia|].
    unfold in_slice, axis_core; cbn [start stop]. fold h.
    change (0 =? 0) with true. cbv iota.
    destruct (Z.eqb_spec 0 (n - 1)); lia.
  - set (q := (i - h) / stride).
    assert (Hq : q * stride <= i - h < (q + 1) * stride).
    { pose proof (Z.div_mod (i - h) stride ltac:(lia)).
      pose proof (Z.mod_pos_bound (i - h) stride stride_pos).
      subst q. nia. }
    assert (Hq1 : 1 <= q) by nia.
    destruct (Z_lt_ge_dec q (n - 1)) as [Hin | Hlast].
    + exists q. split; [lia|].
      unfold in_slice, axis_core; cbn [start stop]. fold h.
      destruct (Z.eqb_spec q 0), (Z.eqb_spec q (n - 1)); try lia.
    + exists (n - 1). split; [lia|].
      unfold in_slice, axis_core; cbn [start stop]. fold h.
      rewrite Z.eqb_refl.
      destruct (Z.eqb_spec (n - 1) 0); nia.
Qed.
End Axis.

End CoreRegions.

(** C1.  For a tile size [tile_size_px > 0], a stride with
    [0 < stride <= tile_size_px] and an even overlap [tile_size_px - stride],
    and a grid of [xbs] x [ybs] tiles (both at least 1), the core regions
    returned by [get_slice_on_full_image_for_copying] (i) stay inside the
    output rectangle [0, width_px) x [0, height_px), where
    [width_px = (xbs - 1) * stride + tile_size_px] and likewise for the
    height, (ii) cover every pixel of that rectangle, (iii) are pairwise
    disjoint: a pixel lies in the core region of one tile only, and
    (iv) are contiguous along X: [core[col].xMax + 1 = core[col+1].xMin]. *)
Theorem core_regions_partition_output (ip : InferenceParameters) (xbs ybs : Z) :
  0 < tile_size_px ip ->
  0 < processing_stride_px ip <= tile_size_px ip ->
  Z.even (tile_size_px ip - processing_stride_px ip) = true ->
  1 <= xbs -> 1 <= ybs ->
  let width_px := grid_size_px ip xbs in
  let height_px := grid_size_px ip ybs in
  (forall col row x y,
      0 <= col < xbs -> 0 <= row < ybs ->
      in_core ip xbs ybs col row x y ->
      0 <= x < width_px /\ 0 <= y < height_px) /\
  (forall x y,
      0 <= x < width_px -> 0 <= y < height_px ->
      exists col row,
        0 <= col < xbs /\ 0 <= row < ybs /\ in_core ip xbs ybs col row x y) /\
  (forall col row col' row' x y,
      0 <= col < xbs -> 0 <= row < ybs ->
      0 <= col' < xbs -> 0 <= row' < ybs ->
      in_core ip xbs ybs col row x y -> in_core ip xbs ybs col' row' x y ->
      col = col' /\ row = row') /\
  (forall col row,
      0 <= col -> col + 1 < xbs -> 0 <= row < ybs ->
      core_xMax ip xbs ybs col row + 1 = core_xMin ip xbs ybs (col + 1) row).
Proof.
  intros Ht [Hs Hst] Hev Hx Hy width_px height_px.
  subst width_px height_px. unfold grid_size_px, in_core, in_slice.
  set (tile := tile_size_px ip) in *. set (stride := processing_stride_px ip) in *.
  assert (HB : forall n k, 1 <= n -> 0 <= k < n ->
             0 <= start (axis_core tile stride n k) /\
             start (axis_core tile stride n k) < stop (axis_core tile stride n k) /\
             stop (axis_core tile stride n k) <= (n - 1) * stride + tile)
    by (intros; apply axis_core_bounds; auto).
  assert (HC : forall n i, 1 <= n -> 0 <= i < (n - 1) * stride + tile ->
             exists k, 0 <= k < n /\ in_slice (axis_core tile stride n k) i)
    by (intros; apply axis_core_cover; auto).
  assert (HU : forall n k k' i, 0 <= k < n -> 0 <= k' < n ->
             in_slice (axis_core tile stride n k) i ->
             in_slice (axis_core tile stride n k') i -> k = k')
    by (intros n k k' i ? ? ? ?; apply (axis_core_unique ip) with (n := n) (i := i); auto; lia).
  assert (HG : forall n k, 0 <= k -> k + 1 < n ->
             stop (axis_core tile stride n k)
             = start (axis_core tile stride n (k + 1)))
    by (intros; apply axis_core_contiguous; auto).
  split; [|split; [|split]].
  - intros col row x y Hc Hr [Hin Hin'].
    rewrite core_columns in Hin. rewrite core_rows in Hin'.
    pose proof (HB xbs col Hx Hc). pose proof (HB ybs row Hy Hr).
    fold tile stride in Hin, Hin'. lia.
  - intros x y Hxr Hyr.
    destruct (HC xbs x Hx Hxr) as (col & Hc & Hin).
    destruct (HC ybs y Hy Hyr) as (row & Hr & Hin').
    exists col, row. rewrite core_columns, core_rows. auto.
  - intros col row col' row' x y Hc Hr Hc' Hr' [Hin1 Hin2] [Hin3 Hin4].
    rewrite core_columns in Hin1, Hin3. rewrite core_rows in Hin2, Hin4.
    split; [exact (HU xbs col col' x Hc Hc' Hin1 Hin3)
           | exact (HU ybs row row' y Hr Hr' Hin2 Hin4)].
  - intros col row Hc Hc' Hr. unfold core_xMax, core_xMin.
    rewrite !core_columns. fold tile stride. rewrite (HG xbs col Hc Hc'). lia.
Qed.

Lemma core_regions_partition_output_witness :
  (forall col row x y,
      0 <= col < 2 -> 0 <= row < 2 ->
      in_core example_params 2 2 col row x y ->
      0 <= x < 112 /\ 0 <= y < 112) /\
  (forall x y,
      0 <= x < 112 -> 0 <= y < 112 ->
      exists col row,
        0 <= col < 2 /\ 0 <= row < 2 /\ in_core example_params 2 2 col row x y) /\
  (forall col row col' row' x y,
      0 <= col < 2 -> 0 <= row < 2 ->
      0 <= col' < 2 -> 0 <= row' < 2 ->
      in_core example_params 2 2 col row x y ->
      in_core example_params 2 2 col' row' x y ->
      col = col' /\ row = row') /\
  (forall col row,
      0 <= col -> col + 1 < 2 -> 0 <= row < 2 ->
      core_xMax example_params 2 2 col row + 1
      = core_xMin example_params 2 2 (col + 1) row).
Proof.
  apply (core_regions_partition_output example_params 2 2);
    cbn; first [lia | reflexivity].
Defined.

(** ** Rounding and truncation *)

Local Open Scope Q_scope.

Lemma Qle_bool_false (a b : Q) : Qle_bool a b = false <-> b < a.
Proof.
  split; intros H.
  - apply Qnot_le_lt. intros Hle. apply Qle_bool_iff in Hle. congruence.
  - destruct (Qle_bool a b) eqn:E; [|reflexivity].
    apply Qle_bool_iff in E. lra.
Qed.

Lemma py_int_nonneg (q : Q) : 0 <= q -> py_int q = Qfloor q.
Proof.
  intros H. unfold py_int. apply Qle_bool_iff in H. now rewrite H.
Qed.

Lemma py_int_neg (q : Q) : q < 0 -> py_int q = Qceiling q.
Proof.
  intros H. unfold py_int. apply Qle_bool_false in H. now rewrite H.
Qed.

Lemma py_int_mono (a b : Q) : a <= b -> (py_int a <= py_int b)%Z.
Proof.
  intros Hab.
  destruct (Qlt_le_dec a 0) as [Ha | Ha], (Qlt_le_dec b 0) as [Hb | Hb].
  - rewrite !py_int_neg by assumption. now apply Qceiling_resp_le.
  - rewrite py_int_neg, py_int_nonneg by assumption.
    pose proof (Qceiling_resp_le a 0 ltac:(lra)) as H1.
    pose proof (Qfloor_resp_le 0 b Hb) as H2.
    change (Qceiling 0) with 0%Z in H1. change (Qfloor 0) with 0%Z in H2. lia.
  - lra.
  - rewrite !py_int_nonneg by assumption. now apply Qfloor_resp_le.
Qed.

Lemma py_round_comp (p q : Q) : p == q -> py_round p = py_round q.
Proof.
  intros H. unfold py_round.
  assert (Hf : Qfloor p = Qfloor q) by (apply Qfloor_comp; exact H).
  rewrite Hf.
  assert (Hc : Qcompare (p - inject_Z (Qfloor q)) (1 # 2)
               = Qcompare (q - inject_Z (Qfloor q)) (1 # 2)).
  { apply Qcompare_comp; [|reflexivity].
    apply Qplus_comp; [exact H | reflexivity]. }
  rewrite Hc. reflexivity.
Qed.

Lemma py_round_Z (n : Z) : py_round (inject_Z n) = n.
Proof.
  unfold py_round. cbv zeta. rewrite Qfloor_Z.
  assert (H : inject_Z n - inject_Z n < 1 # 2) by lra.
  apply Qlt_alt in H. unfold Qcompare in *. now rewrite H.
Qed.

Lemma py_truediv_ok (a b : Q) : ~ b == 0 -> py_truediv a b = Ok (a / b).
Proof.
  intros H. unfold py_truediv.
  destruct (Qeq_bool b 0) eqn:E; [|reflexivity].
  apply Qeq_bool_iff in E. contradiction.
Qed.

Lemma snap_trunc_mono (origin spacing a b : Q) :
  0 < spacing -> a <= b ->
  snap_trunc origin spacing a <= snap_trunc origin spacing b.
Proof.
  intros Hs Hab. unfold snap_trunc.
  assert (Hq : (a - origin) / spacing <= (b - origin) / spacing).
  { apply Qmult_le_compat_r; [lra|]. apply Qlt_le_weak, Qinv_lt_0_compat, Hs. }
  apply py_int_mono in Hq. rewrite Zle_Qle in Hq. nra.
Qed.

Lemma snap_trunc_above_origin (origin spacing b : Q) :
  0 < spacing -> origin <= b ->
  snap_trunc origin spacing b = snap_floor origin spacing b /\
  snap_trunc origin spacing b <= b.
Proof.
  intros Hs Hb. unfold snap_trunc, snap_floor.
  assert (Hq : 0 <= (b - origin) / spacing).
  { apply Qle_shift_div_l; [assumption | lra]. }
  rewrite (py_int_nonneg _ Hq). split; [reflexivity|].
  pose proof (Qfloor_le ((b - origin) / spacing)) as Hf.
  assert (Hm : inject_Z (Qfloor ((b - origin) / spacing)) * spacing
               <= (b - origin) / spacing * spacing)
    by (apply Qmult_le_compat_r; lra).
  assert (He : (b - origin) / spacing * spacing == b - origin)
    by (field; lra).
  lra.
Qed.

Lemma snap_trunc_below_origin (origin spacing b : Q) :
  0 < spacing -> b <= origin ->
  b <= snap_trunc origin spacing b /\ snap_trunc origin spacing b <= origin.
Proof.
  intros Hs Hb. unfold snap_trunc.
  assert (He : (b - origin) / spacing * spacing == b - origin)
    by (field; lra).
  destruct (Qeq_dec b origin) as [Heq | Hne].
  - assert (Hq : (b - origin) / spacing == 0) by (rewrite Heq; field; lra).
    rewrite py_int_nonneg by lra.
    rewrite (Qfloor_comp _ _ Hq). change (inject_Z (Qfloor 0)) with 0.
    split; lra.
  - assert (Hq : (b - origin) / spacing < 0).
    { apply Qlt_shift_div_r; [assumption | lra]. }
    rewrite (py_int_neg _ Hq).
    pose proof (Qle_ceiling ((b - origin) / spacing)) as Hc.
    pose proof (Qceiling_resp_le _ 0 (Qlt_le_weak _ _ Hq)) as Hc0.
    change (Qceiling 0) with 0%Z in Hc0. rewrite Zle_Qle in Hc0.
    change (inject_Z 0) with 0 in Hc0.
    assert (Hm : (b - origin) / spacing * spacing
                 <= inject_Z (Qceiling ((b - origin) / spacing)) * spacing)
      by (apply Qmult_le_compat_r; lra).
    assert (Hn : inject_Z (Qceiling ((b - origin) / spacing)) * spacing <= 0).
    { rewrite <- (Qmult_0_l spacing). apply Qmult_le_compat_r; lra. }
    set (c := inject_Z (Qceiling ((b - origin) / spacing)) * spacing) in *.
    set (d := (b - origin) / spacing * spacing) in *.
    split; lra.
Qed.

Local Close Scope Q_scope.

(** ** Snapping an extent to the raster grid *)

(** C5 (amended).  With positive pixel sizes and an extent whose bounds are
    in order, [round_extent_to_rlayer_grid] returns the rectangle whose four
    bounds are [origin + int((b - origin) / spacing) * spacing], where [int]
    truncates towards zero.  For a bound at or above the grid origin this is
    the floor formula and the result is at most the bound; for a bound below
    the origin the result lies between the bound and the origin, so it is
    snapped upwards. *)
Theorem round_extent_to_rlayer_grid_truncates
    (extent : QgsRectangle) (rlayer : QgsRasterLayer.t) :
  let ox := xMinimum (QgsRasterLayer.extent rlayer) in
  let oy := yMinimum (QgsRasterLayer.extent rlayer) in
  let sx := QgsRasterLayer.rasterUnitsPerPixelX rlayer in
  let sy := QgsRasterLayer.rasterUnitsPerPixelY rlayer in
  (0 < sx)%Q -> (0 < sy)%Q -> rect_normalized extent ->
  round_extent_to_rlayer_grid extent rlayer
  = Ok (mkRect (snap_trunc ox sx (xMinimum extent))
               (snap_trunc oy sy (yMinimum extent))
               (snap_trunc ox sx (xMaximum extent))
               (snap_trunc oy sy (yMaximum extent))) /\
  (forall origin spacing b, (0 < spacing)%Q -> (origin <= b)%Q ->
     snap_trunc origin spacing b = snap_floor origin spacing b /\
     (snap_trunc origin spacing b <= b)%Q) /\
  (forall origin spacing b, (0 < spacing)%Q -> (b <= origin)%Q ->
     (b <= snap_trunc origin spacing b)%Q /\
     (snap_trunc origin spacing b <= origin)%Q).
Proof.
  intros ox oy sx sy Hsx Hsy [Hx Hy].
  split; [|split].
  - unfold round_extent_to_rlayer_grid. cbn [fst snd].
    fold ox oy sx sy.
    rewrite !py_truediv_ok by lra. cbn [mbind result_bind mret result_ret].
    unfold QgsRectangle_new, Qltb.
    pose proof (snap_trunc_mono ox sx _ _ Hsx Hx) as Mx.
    pose proof (snap_trunc_mono oy sy _ _ Hsy Hy) as My.
    unfold snap_trunc in Mx, My.
    apply Qle_bool_iff in Mx, My. rewrite Mx, My. reflexivity.
  - intros. now apply snap_trunc_above_origin.
  - intros. now apply snap_trunc_below_origin.
Qed.

Lemma round_extent_to_rlayer_grid_truncates_witness :
  round_extent_to_rlayer_grid (mkRect (3 # 2) (1 # 2) (7 # 2) (9 # 4))
    unit_raster
  = Ok (mkRect (snap_trunc 0 1 (3 # 2)) (snap_trunc 0 1 (1 # 2))
               (snap_trunc 0 1 (7 # 2)) (snap_trunc 0 1 (9 # 4))) /\
  (forall origin spacing b, (0 < spacing)%Q -> (origin <= b)%Q ->
     snap_trunc origin spacing b = snap_floor origin spacing b /\
     (snap_trunc origin spacing b <= b)%Q) /\
  (forall origin spacing b, (0 < spacing)%Q -> (b <= origin)%Q ->
     (b <= snap_trunc origin spacing b)%Q /\
     (snap_trunc origin spacing b <= origin)%Q).
Proof.
  apply (round_extent_to_rlayer_grid_truncates
           (mkRect (3 # 2) (1 # 2) (7 # 2) (9 # 4)) unit_raster).
  - reflexivity.
  - reflexivity.
  - split; cbn; unfold Qle; cbn; lia.
Defined.

(** C5, as stated, fails: on the unit grid with origin 0, the lower bound
    [-1/2] is returned as [0], which is neither the floor formula ([-1])
    nor at most the bound. *)
Lemma round_extent_to_rlayer_grid_not_floor :
  exists out,
    round_extent_to_rlayer_grid
      (mkRect (- (1 # 2)) (- (1 # 2)) (3 # 2) (3 # 2)) unit_raster = Ok out /\
    ~ (xMinimum out == snap_floor 0 1 (- (1 # 2)))%Q /\
    ~ (xMinimum out <= - (1 # 2))%Q.
Proof.
  exists (mkRect 0 0 1 1). split; [reflexivity|].
  split; intros H; vm_compute in H; congruence.
Qed.

(** ** The extended extent *)

Lemma missing_pixels_spec (current tile stride : Z) :
  0 < stride ->
  exists m, missing_pixels current tile stride = Ok m /\ 0 <= m /\
            (current + m - tile) mod stride = 0 /\
            (current <= tile -> current + m = tile).
Proof.
  intros Hs. unfold missing_pixels.
  destruct (Z.leb_spec current tile) as [Hle | Hgt].
  - exists (tile - current). cbn. repeat split; try lia.
    replace (current + (tile - current) - tile) with 0 by lia.
    apply Z.mod_0_l. lia.
  - unfold py_mod. destruct (Z.eqb_spec stride 0) as [|_]; [lia|].
    cbn [mbind result_bind].
    destruct (Z.eqb_spec stride 0) as [|_]; [lia|].
    eexists. split; [reflexivity|].
    set (a := current - tile).
    pose proof (Z.mod_pos_bound a stride Hs) as Hr.
    pose proof (Z.mod_pos_bound (stride - a mod stride) stride Hs) as Hm.
    split; [lia|]. split; [|lia].
    replace (current + (stride - a mod stride) mod stride - tile)
      with (a + (stride - a mod stride) mod stride) by (subst a; lia).
    rewrite Z.add_mod_idemp_r by lia.
    replace (a + (stride - a mod stride)) with (a - a mod stride + 1 * stride)
      by lia.
    rewrite Z.mod_add by lia.
    rewrite Zminus_mod_idemp_r, Z.sub_diag. apply Z.mod_0_l. lia.
Qed.

Lemma size_px_whole (n : Z) (size upp : Q) :
  (0 < upp)%Q -> (size == inject_Z n * upp)%Q -> size_px size upp = Ok n.
Proof.
  intros Hu Hs. unfold size_px. rewrite py_truediv_ok by lra.
  cbn [mbind result_bind mret result_ret]. f_equal.
  rewrite <- (py_round_Z n). apply py_round_comp.
  rewrite Hs. field. lra.
Qed.

(** Where the padded extent measures a whole number of pixels along both
    axes, the extension does what its comments announce: the size becomes
    [N * stride + tile_size], and one tile when it was at most a tile. *)
Lemma extended_extent_of_whole_pixels
    (ip : InferenceParameters) (stride : Z) (upp : Q)
    (rlayer : QgsRasterLayer.t) (base : QgsRectangle) (nx ny : Z) :
  (0 < upp)%Q -> 0 < stride ->
  (width (padded_extent ip upp rlayer base) == inject_Z nx * upp)%Q ->
  (height (padded_extent ip upp rlayer base) == inject_Z ny * upp)%Q ->
  exists e wpx hpx,
    _calculate_extended_processing_extent ip stride upp rlayer base = Ok e /\
    size_px (width e) upp = Ok wpx /\ size_px (height e) upp = Ok hpx /\
    (wpx - tile_size_px ip) mod stride = 0 /\
    (hpx - tile_size_px ip) mod stride = 0 /\
    (nx <= tile_size_px ip -> wpx = tile_size_px ip) /\
    (ny <= tile_size_px ip -> hpx = tile_size_px ip).
Proof.
  intros Hu Hs Hw Hh.
  set (tmp := padded_extent ip upp rlayer base) in *.
  pose proof (size_px_whole nx _ upp Hu Hw) as Hcx.
  pose proof (size_px_whole ny _ upp Hu Hh) as Hcy.
  unfold size_px in Hcx, Hcy.
  rewrite py_truediv_ok in Hcx, Hcy by lra.
  cbn [mbind result_bind mret result_ret] in Hcx, Hcy.
  injection Hcx as Hcx. injection Hcy as Hcy.
  destruct (missing_pixels_spec nx (tile_size_px ip) stride Hs)
    as (mx & Emx & Hmx0 & Hmx & Hmx1).
  destruct (missing_pixels_spec ny (tile_size_px ip) stride Hs)
    as (my & Emy & Hmy0 & Hmy & Hmy1).
  exists (mkRect (xMinimum tmp) (yMinimum tmp)
            (xMaximum tmp + inject_Z mx * upp)%Q
            (yMaximum tmp + inject_Z my * upp)%Q), (nx + mx), (ny + my).
  split; [|split; [|split]].
  - unfold _calculate_extended_processing_extent. cbv zeta. fold tmp.
    rewrite (py_truediv_ok (width tmp) upp) by lra.
    cbn [mbind result_bind]. rewrite Hcx, Emx. cbn [mbind result_bind].
    rewrite (py_truediv_ok (height tmp) upp) by lra.
    cbn [mbind result_bind]. rewrite Hcy, Emy. reflexivity.
  - apply size_px_whole; [assumption|].
    unfold width in *. cbn [xMaximum xMinimum].
    rewrite inject_Z_plus. lra.
  - apply size_px_whole; [assumption|].
    unfold height in *. cbn [yMaximum yMinimum].
    rewrite inject_Z_plus. lra.
  - repeat split; assumption.
Qed.

(** C2 at the half-pixel input.  A raster of 5 x 5 pixels of half a unit is
    processed whole at one unit per pixel, with tiles of 5 pixels and stride
    5.  The base extent is the raster extent (so it is contained in it); the
    padded and clamped extent measures [round(2.5) = 2] pixels, at most one
    tile; 3 pixels are added; the returned extent is 5.5 units wide and
    measures [round(5.5) = 6] pixels: neither one tile nor
    [N * stride + tile_size], since [(6 - 5) mod 5 = 1]. *)
Theorem extended_extent_half_pixel_rounding :
  exists base e,
    _calculate_base_processing_extent_in_rlayer_crs empty_project
      half_unit_raster five_px_params example_canvas = Ok base /\
    rect_contains (QgsRasterLayer.extent half_unit_raster) base /\
    size_px (width (padded_extent five_px_params 1 half_unit_raster base)) 1
    = Ok 2 /\
    _calculate_extended_processing_extent five_px_params
      (processing_stride_px five_px_params) 1 half_unit_raster base = Ok e /\
    (width e == 11 # 2)%Q /\
    size_px (width e) 1 = Ok 6 /\
    size_px (height e) 1 = Ok 6 /\
    (6 - tile_size_px five_px_params) mod processing_stride_px five_px_params
    = 1.
Proof.
  eexists. eexists. split; [reflexivity|]. split.
  - unfold rect_contains. repeat split; apply Qle_bool_iff; reflexivity.
  - repeat split; reflexivity.
Qed.

(** ** The base extent *)

Lemma py_getitem_first {A} (l : list A) :
  py_getitem l 0 = match l with
                   | [] => Raise IndexError
                   | a :: _ => Ok a
                   end.
Proof.
  unfold py_getitem. destruct l as [|a l]; [reflexivity|].
  cbn [length]. change (0 <? 0) with false. cbv iota.
  replace (0 <? Z.of_nat (S (length l))) with true
    by (symmetry; apply Z.ltb_lt; lia).
  reflexivity.
Qed.

Lemma round_extent_to_rlayer_grid_ok
    (extent : QgsRectangle) (rlayer : QgsRasterLayer.t) :
  ~ (QgsRasterLayer.rasterUnitsPerPixelX rlayer == 0)%Q ->
  ~ (QgsRasterLayer.rasterUnitsPerPixelY rlayer == 0)%Q ->
  exists out, round_extent_to_rlayer_grid extent rlayer = Ok out.
Proof.
  intros Hx Hy. unfold round_extent_to_rlayer_grid. cbn [fst snd].
  rewrite !py_truediv_ok by assumption.
  cbn [mbind result_bind mret result_ret]. eexists. reflexivity.
Qed.

(** C8.  On a raster with non-zero pixel sizes, the base extent
    computation raises in exactly two cases: the mode is [FROM_POLYGONS] and
    no mask geometry is supplied (no layer name, or a name the project holds
    no layer for), or the mode is not one of the three supported ones.  What
    it raises then is one of the invalid-area exceptions; in every other
    case it returns an extent. *)
Theorem base_extent_raises_in_two_cases
    (qgis : Qgis) (rlayer : QgsRasterLayer.t) (ip : InferenceParameters)
    (map_canvas : QgsMapCanvas.t) :
  ~ (QgsRasterLayer.rasterUnitsPerPixelX rlayer == 0)%Q ->
  ~ (QgsRasterLayer.rasterUnitsPerPixelY rlayer == 0)%Q ->
  let r := _calculate_base_processing_extent_in_rlayer_crs
             qgis rlayer ip map_canvas in
  let missing_mask :=
    processed_area_type ip = FROM_POLYGONS /\
    ~ mask_reference_supplied qgis ip in
  let unsupported_mode :=
    exists tag, processed_area_type ip = OTHER_AREA_TYPE tag in
  (raises r <-> missing_mask \/ unsupported_mode) /\
  (forall e, r = Raise e -> InvalidAreaError e) /\
  (~ (missing_mask \/ unsupported_mode) -> exists extent, r = Ok extent).
Proof.
  intros Hx Hy r missing_mask unsupported_mode.
  assert (Hround : forall ext, exists out,
             round_extent_to_rlayer_grid ext rlayer = Ok out)
    by (intros; now apply round_extent_to_rlayer_grid_ok).
  subst r missing_mask unsupported_mode.
  unfold _calculate_base_processing_extent_in_rlayer_crs,
    mask_reference_supplied, raises, InvalidAreaError.
  destruct (processed_area_type ip) as [| | |tag] eqn:Emode.
  - (* VISIBLE_PART *)
    cbn [mbind result_bind mret result_ret].
    destruct (Hround (transform qgis (QgsMapCanvas.destinationCrs map_canvas)
                        (QgsRasterLayer.crs rlayer)
                        (QgsMapCanvas.extent map_canvas))) as [out ->].
    cbn [mbind result_bind mret result_ret].
    split; [split|split].
    + intros [e He]. discriminate.
    + intros [[Hm _] | [tag Hm]]; discriminate.
    + intros e He. discriminate.
    + intros _. eexists. reflexivity.
  - (* ENTIRE_LAYER *)
    cbn [mbind result_bind mret result_ret].
    destruct (Hround (QgsRasterLayer.extent rlayer)) as [out ->].
    cbn [mbind result_bind mret result_ret].
    split; [split|split].
    + intros [e He]. discriminate.
    + intros [[Hm _] | [tag Hm]]; discriminate.
    + intros e He. discriminate.
    + intros _. eexists. reflexivity.
  - (* FROM_POLYGONS *)
    destruct (mask_layer_name ip) as [name|] eqn:Ename.
    + rewrite py_getitem_first.
      destruct (mapLayersByName qgis name) as [|layer layers] eqn:Elayers.
      * cbn [mbind result_bind mret result_ret].
        split; [split|split].
        -- intros _. left. split; [reflexivity|].
           intros (name' & Hn & Hl). injection Hn as <-. congruence.
        -- intros _. eexists. reflexivity.
        -- intros e He. injection He as <-. auto.
        -- intros Hno. exfalso. apply Hno. left. split; [reflexivity|].
           intros (name' & Hn & Hl). injection Hn as <-. congruence.
      * cbn [mbind result_bind mret result_ret].
        destruct (Hround (transform qgis (QgsVectorLayer.sourceCrs layer)
                     (QgsRasterLayer.crs rlayer)
                     (boundingBox (QgsVectorLayer.getGeometry layer 0))))
          as [out ->].
        cbn [mbind result_bind mret result_ret].
        split; [split|split].
        -- intros [e He]. discriminate.
        -- intros [[_ Hm] | [tag Hm]]; [|discriminate].
           exfalso. apply Hm. exists name. split; [reflexivity|].
           rewrite Elayers. discriminate.
        -- intros e He. discriminate.
        -- intros _. eexists. reflexivity.
    + cbn [mbind result_bind mret result_ret].
      split; [split|split].
      * intros _. left. split; [reflexivity|].
        intros (name' & Hn & _). discriminate.
      * intros _. eexists. reflexivity.
      * intros e He. injection He as <-. auto.
      * intros Hno. exfalso. apply Hno. left. split; [reflexivity|].
        intros (name' & Hn & _). discriminate.
  - (* any other mode *)
    cbn [mbind result_bind mret result_ret].
    split; [split|split].
    + intros _. right. eexists. reflexivity.
    + intros _. eexists. reflexivity.
    + intros e He. injection He as <-. auto.
    + intros Hno. exfalso. apply Hno. right. eexists. reflexivity.
Qed.

Lemma base_extent_raises_in_two_cases_witness :
  let r := _calculate_base_processing_extent_in_rlayer_crs
             empty_project unit_raster (from_polygons_params None)
             example_canvas in
  let missing_mask :=
    processed_area_type (from_polygons_params None) = FROM_POLYGONS /\
    ~ mask_reference_supplied empty_project (from_polygons_params None) in
  let unsupported_mode :=
    exists tag,
      processed_area_type (from_polygons_params None) = OTHER_AREA_TYPE tag in
  (raises r <-> missing_mask \/ unsupported_mode) /\
  (forall e, r = Raise e -> InvalidAreaError e) /\
  (~ (missing_mask \/ unsupported_mode) -> exists extent, r = Ok extent).
Proof.
  apply (base_extent_raises_in_two_cases empty_project unit_raster
           (from_polygons_params None) example_canvas);
    intros H; vm_compute in H; discriminate.
Defined.

(** ** The per-tile prediction *)

(** How a call of [_process_tile] ends, case by case on the store. *)
Lemma process_tile_outcome (model_wrapper : ModelWrapper) (tile_img : ndarray)
    (w : world) :
  match heap w !! buffer_of tile_img with
  | None => _process_tile model_wrapper tile_img w
            = (Raised (Exception "dangling array reference"), w)
  | Some b =>
      let l' := fresh (dom (heap w)) in
      let b' := mkBuf (view_shape tile_img b)
                      (fun idx => data b (view_index tile_img idx)) in
      match view_shape tile_img b with
      | [_; _; c] =>
          if 0 <? c then
            exists b'',
              _process_tile model_wrapper tile_img w
              = (Return (Channel l' 0),
                 mkWorld (<[l' := b'']> (heap w)) (model_calls w)) /\
              shape b'' = shape b' /\
              forall i j, data b'' [i; j; 0]
                          = if data b' [i; j; 0] <? 255 then 0 else 255
          else
            _process_tile model_wrapper tile_img w
            = (Raised IndexError,
               mkWorld (<[l' := b']> (heap w)) (model_calls w))
      | _ =>
          _process_tile model_wrapper tile_img w
          = (Raised IndexError,
             mkWorld (<[l' := b']> (heap w)) (model_calls w))
      end
  end.
Proof.
  destruct (heap w !! buffer_of tile_img) as [b|] eqn:Eb.
  2:{ unfold _process_tile, seq_, copy_copy. cbv beta. rewrite Eb.
      reflexivity. }
  cbv zeta. set (l' := fresh (dom (heap w))).
  destruct (view_shape tile_img b) as [|h [|wd [|c [|]]]] eqn:Es.
  all: unfold _process_tile, seq_, copy_copy, getitem_channel; cbv beta;
    rewrite Eb; fold l'; cbv beta iota; cbn [heap buffer_of];
    rewrite lookup_insert_eq; cbn [shape]; rewrite ?Es; try reflexivity.
  change (0 <? 0) with false. cbv iota. change (0 <=? 0) with true.
  cbn [andb].
  destruct (0 <? c) eqn:Ec; [|reflexivity].
  unfold lt_scalar, setitem_mask, ge_scalar, return_.
  repeat (progress cbn [heap buffer_of model_calls]
          || rewrite lookup_insert_eq).
  rewrite !insert_insert_eq.
  eexists. split; [reflexivity|]. split; [reflexivity|].
  intros i j. cbn. 
  destruct (data b (view_index tile_img [i; j; 0]) <? 255) eqn:Elt.
  - reflexivity.
  - rewrite Z.geb_leb. apply Z.ltb_ge in Elt.
    now replace (255 <=? data b (view_index tile_img [i; j; 0])) with true
      by (symmetry; apply Z.leb_le; exact Elt).
Qed.

Lemma fresh_not_allocated (w : world) (l : nat) (b : ndbuf) :
  heap w !! l = Some b -> fresh (dom (heap w)) <> l.
Proof.
  intros Hl Heq. apply (is_fresh (dom (heap w))).
  rewrite Heq. apply elem_of_dom. eauto.
Qed.

(** C4.  [_process_tile] never runs the network.  On a tile image with
    at least one channel it returns a view of channel 0 (red) in which a
    pixel is 255 where the input is at least 255 and 0 where it is below;
    the outcome is the same for every network, and on every execution,
    also a failing one, no call of [model_wrapper.process] is made: the
    statement after the [return] is never reached. *)
Theorem process_tile_thresholds_red_channel
    (model_wrapper : ModelWrapper) (w : world) (l : nat) (b : ndbuf)
    (h wd c : Z) :
  heap w !! l = Some b -> shape b = [h; wd; c] -> 0 < c ->
  (exists l' w' b',
     _process_tile model_wrapper (Whole l) w = (Return (Channel l' 0), w') /\
     heap w' !! l' = Some b' /\ view_shape (Channel l' 0) b' = [h; wd] /\
     (forall i j, 255 <= data b [i; j; 0] ->
                  read w' (Channel l' 0) [i; j] = Some 255) /\
     (forall i j, data b [i; j; 0] < 255 ->
                  read w' (Channel l' 0) [i; j] = Some 0)) /\
  (forall other_model : ModelWrapper,
     _process_tile other_model (Whole l) w
     = _process_tile model_wrapper (Whole l) w) /\
  (forall (any_model : ModelWrapper) tile_img w0,
     model_calls (_process_tile any_model tile_img w0).2 = model_calls w0).
Proof.
  intros Hl Hs Hc.
  assert (Hrun : forall m : ModelWrapper, exists b'',
    _process_tile m (Whole l) w
    = (Return (Channel (fresh (dom (heap w))) 0),
       mkWorld (<[fresh (dom (heap w)) := b'']> (heap w)) (model_calls w)) /\
    shape b'' = [h; wd; c] /\
    forall i j, data b'' [i; j; 0]
                = if data b [i; j; 0] <? 255 then 0 else 255).
  { intros m. pose proof (process_tile_outcome m (Whole l) w) as H.
    cbn [buffer_of view_shape view_index] in H. rewrite Hl, Hs in H.
    cbv zeta in H. replace (0 <? c) with true in H
      by (symmetry; apply Z.ltb_lt; exact Hc).
    destruct H as (b'' & E & Hsh & Hd). exists b''. cbn [shape data] in *.
    auto. }
  split; [|split].
  - destruct (Hrun model_wrapper) as (b'' & E & Hsh & Hd).
    eexists _, _, b''. split; [exact E|]. cbn [heap].
    split; [apply lookup_insert_eq|]. split; [cbn; now rewrite Hsh|].
    split; intros i j Hv; unfold read; cbn [heap buffer_of view_index];
      rewrite lookup_insert_eq; cbn; rewrite Hd;
      destruct (Z.ltb_spec (data b [i; j; 0]) 255); (reflexivity || lia).
  - intros other. reflexivity.
  - intros m a w0. pose proof (process_tile_outcome m a w0) as H.
    destruct (heap w0 !! buffer_of a) as [b0|]; [|now rewrite H].
    cbv zeta in H.
    destruct (view_shape a b0) as [|? [|? [|c0 [|]]]];
      try (now rewrite H).
    destruct (0 <? c0); [|now rewrite H].
    destruct H as (? & -> & _). reflexivity.
Qed.

Lemma process_tile_thresholds_red_channel_witness :
  (exists l' w' b',
     _process_tile identity_model (Whole 0) example_world
     = (Return (Channel l' 0), w') /\
     heap w' !! l' = Some b' /\ view_shape (Channel l' 0) b' = [2; 2] /\
     (forall i j, 255 <= data example_tile [i; j; 0] ->
                  read w' (Channel l' 0) [i; j] = Some 255) /\
     (forall i j, data example_tile [i; j; 0] < 255 ->
                  read w' (Channel l' 0) [i; j] = Some 0)) /\
  (forall other_model : ModelWrapper,
     _process_tile other_model (Whole 0) example_world
     = _process_tile identity_model (Whole 0) example_world) /\
  (forall (any_model : ModelWrapper) tile_img w0,
     model_calls (_process_tile any_model tile_img w0).2 = model_calls w0).
Proof.
  apply (process_tile_thresholds_red_channel identity_model example_world
           0%nat example_tile 2 2 3).
  - reflexivity.
  - reflexivity.
  - lia.
Defined.

(** C10.  [_process_tile] leaves its input alone: every cell of the array
    passed in reads the same after the call, every buffer that existed
    before the call is unchanged, and the array returned lives in a buffer
    that did not exist before (the copy made by [copy.copy]). *)
Theorem process_tile_leaves_input_unchanged
    (model_wrapper : ModelWrapper) (tile_img : ndarray) (w : world) :
  let w' := (_process_tile model_wrapper tile_img w).2 in
  (forall idx, read w' tile_img idx = read w tile_img idx) /\
  (forall l b, heap w !! l = Some b -> heap w' !! l = Some b) /\
  (forall r, (_process_tile model_wrapper tile_img w).1 = Return r ->
             heap w !! buffer_of r = None).
Proof.
  cbv zeta.
  assert (Hframe : forall l b, heap w !! l = Some b ->
            heap (_process_tile model_wrapper tile_img w).2 !! l = Some b).
  { intros l b Hl.
    pose proof (fresh_not_allocated w l b Hl) as Hne.
    pose proof (process_tile_outcome model_wrapper tile_img w) as H.
    destruct (heap w !! buffer_of tile_img) as [b0|]; [|now rewrite H].
    cbv zeta in H.
    destruct (view_shape tile_img b0) as [|? [|? [|c0 [|]]]];
      try (rewrite H; cbn [snd heap]; now rewrite lookup_insert_ne).
    destruct (0 <? c0);
      [|rewrite H; cbn [snd heap]; now rewrite lookup_insert_ne].
    destruct H as (? & -> & _). cbn [snd heap]. now rewrite lookup_insert_ne. }
  split; [|split].
  - intros idx. unfold read.
    destruct (heap w !! buffer_of tile_img) as [b|] eqn:Eb.
    + now rewrite (Hframe _ _ Eb).
    + pose proof (process_tile_outcome model_wrapper tile_img w) as H.
      rewrite Eb in H. rewrite H. cbn [snd]. now rewrite Eb.
  - exact Hframe.
  - intros r Hr.
    pose proof (process_tile_outcome model_wrapper tile_img w) as H.
    destruct (heap w !! buffer_of tile_img) as [b0|];
      [|rewrite H in Hr; discriminate].
    cbv zeta in H.
    destruct (view_shape tile_img b0) as [|? [|? [|c0 [|]]]];
      try (rewrite H in Hr; discriminate).
    destruct (0 <? c0); [|rewrite H in Hr; discriminate].
    destruct H as (? & E & _). rewrite E in Hr. injection Hr as <-.
    cbn [buffer_of]. apply not_elem_of_dom, is_fresh.
Qed.

Lemma process_tile_leaves_input_unchanged_witness :
  let w' := (_process_tile identity_model (Whole 0) example_world).2 in
  (forall idx, read w' (Whole 0) idx = read example_world (Whole 0) idx) /\
  (forall l b, heap example_world !! l = Some b -> heap w' !! l = Some b) /\
  (forall r, (_process_tile identity_model (Whole 0) example_world).1
             = Return r ->
             heap example_world !! buffer_of r = None).
Proof.
  exact (process_tile_leaves_input_unchanged identity_model (Whole 0)
           example_world).
Defined.

(** ** Contours and polygons *)

Lemma py_getitem_lookup {A} (l : list A) (i : Z) (a : A) :
  0 <= i -> l !! Z.to_nat i = Some a -> py_getitem l i = Ok a.
Proof.
  intros Hi Hl. unfold py_getitem.
  pose proof (lookup_lt_Some _ _ _ Hl) as Hlen.
  replace (i <? 0) with false by (symmetry; apply Z.ltb_ge; lia).
  replace (0 <=? i) with true by (symmetry; apply Z.leb_le; lia).
  replace (i <? Z.of_nat (length l)) with true
    by (symmetry; apply Z.ltb_lt; lia).
  cbn [andb]. now rewrite Hl.
Qed.

Lemma represents_end cs hs forest : represents cs hs (-1) forest -> forest = [].
Proof. inversion 1; [reflexivity | lia]. Qed.

Lemma represents_index cs hs i forest :
  represents cs hs i forest -> i = -1 \/ 0 <= i.
Proof. inversion 1; auto. Qed.

Lemma flat_emitted_cons is_hole t forest :
  flat_map (emitted is_hole) (t :: forest)
  = emitted is_hole t ++ flat_map (emitted is_hole) forest.
Proof. reflexivity. Qed.

Lemma rings_of_cons t forest :
  rings_of (t :: forest)
  = (if degenerate (ring_of t) then [] else [ring_of t]) ++ rings_of forest.
Proof.
  unfold rings_of. cbn [filter list_filter].
  destruct (degenerate (ring_of t)); reflexivity.
Qed.

(** On arrays that spell out a forest, the conversion finishes once the
    fuel reaches a bound, and appends the features in the order
    [emitted]; as holes it appends the rings of the forest. *)
Lemma convert_represents cs hs i forest :
  represents cs hs i forest ->
  exists fuel0, forall fuel features is_hole holes, (fuel0 <= fuel)%nat ->
    let R := Done (features ++ flat_map (emitted is_hole) forest,
                   holes ++ (if is_hole then rings_of forest else [])) in
    _convert_cv_contours_to_features fuel features cs hs i is_hole holes = R /\
    (i <> -1 -> convert_while fuel features cs hs i is_hole holes = R).
Proof.
  induction 1 as [|i ring row children siblings Hi Hring Hrow
                    Hkids [fc IHc] Hsibs [fs IHs]].
  - exists 1%nat. intros fuel features is_hole holes Hf. cbv zeta.
    split; [|congruence].
    destruct fuel as [|fuel]; [lia|].
    destruct is_hole; cbn; now rewrite !app_nil_r.
  - exists (S (S (Nat.max fc fs))).
    assert (Hloop : forall fuel features is_hole holes,
      (S (Nat.max fc fs) <= fuel)%nat ->
      convert_while fuel features cs hs i is_hole holes
      = Done (features ++ flat_map (emitted is_hole)
                            (CNode ring children :: siblings),
              holes ++ (if is_hole
                        then rings_of (CNode ring children :: siblings)
                        else []))).
    { intros fuel features is_hole holes Hf.
      destruct fuel as [|fuel]; [lia|].
      cbn [convert_while].
      rewrite (py_getitem_lookup _ _ _ Hi Hring).
      rewrite (py_getitem_lookup _ _ _ Hi Hrow).
      cbn [run_of_result mbind run_bind].
      rewrite flat_emitted_cons, rings_of_cons. cbn [emitted ring_of].
      unfold degenerate at 1 2.
      destruct (IHs fuel) with (features := features) (is_hole := is_hole)
        (holes := holes) as [_ _]; [lia|].
      assert (Hnext : forall features1 holes1,
        (if row0 row =? -1 then mret (features1, holes1)
         else convert_while fuel features1 cs hs (row0 row) is_hole holes1)
        = Done (features1 ++ flat_map (emitted is_hole) siblings,
                holes1 ++ (if is_hole then rings_of siblings else []))).
      { intros features1 holes1.
        destruct (Z.eqb_spec (row0 row) (-1)) as [E | E].
        - rewrite E in Hsibs. apply represents_end in Hsibs. subst siblings.
          destruct is_hole; cbn; now rewrite !app_nil_r.
        - destruct (IHs fuel features1 is_hole holes1) as [_ Hw]; [lia|].
          exact (Hw E). }
      destruct (Z.leb_spec 3 (Z.of_nat (length ring))) as [Hlong | Hshort].
      - replace (Z.of_nat (length ring) <? 3) with false
          by (symmetry; apply Z.ltb_ge; lia).
        destruct (IHc fuel features (negb is_hole) []) as [Hc _]; [lia|].
        cbv zeta in Hc. rewrite Hc. cbn [mbind run_bind].
        destruct is_hole; cbn [negb mret run_ret mbind run_bind].
        + rewrite Hnext. rewrite !app_nil_r. now rewrite <- !app_assoc.
        + rewrite Hnext. rewrite !app_nil_r. now rewrite <- !app_assoc.
      - replace (Z.of_nat (length ring) <? 3) with true
          by (symmetry; apply Z.ltb_lt; lia).
        cbn [mbind run_bind mret run_ret]. rewrite Hnext. reflexivity. }
    intros fuel features is_hole holes Hf. cbv zeta. split.
    + destruct fuel as [|fuel]; [lia|].
      cbn [_convert_cv_contours_to_features].
      replace (i =? -1) with false by (symmetry; apply Z.eqb_neq; lia).
      apply Hloop. lia.
    + intros _. apply Hloop. lia.
Qed.

Lemma ctree_forall_ind (P : ctree -> Prop) :
  (forall ring children, Forall P children -> P (CNode ring children)) ->
  forall t, P t.
Proof.
  intros H.
  refine (fix IH (t : ctree) : P t :=
            match t with
            | CNode ring children =>
                H ring children
                  ((fix go (l : list ctree) : Forall P l :=
                      match l with
                      | [] => List.Forall_nil P
                      | a :: l' => List.Forall_cons P a l' (IH a) (go l')
                      end) children)
            end).
Qed.

Lemma flat_map_Permutation {A B} (f g : A -> list B) (l : list A) :
  Forall (fun a => Permutation (f a) (g a)) l ->
  Permutation (flat_map f l) (flat_map g l).
Proof.
  induction 1 as [|a l Ha _ IH]; cbn; [constructor|].
  now apply Permutation_app.
Qed.

(** The order of appending aside, the code emits the polygons of the
    specification. *)
Lemma emitted_polygons (t : ctree) :
  Permutation (emitted false t) (polygons_of t) /\
  Permutation (emitted true t)
    (if degenerate (ring_of t) then []
     else polygons_at_even_depth (children_of t)).
Proof.
  induction t as [ring children IH] using ctree_forall_ind.
  cbn [emitted polygons_of ring_of children_of negb].
  destruct (degenerate ring); [split; constructor|]. split.
  - rewrite Permutation_app_comm. cbn [app]. apply perm_skip.
    apply flat_map_Permutation.
    eapply Forall_impl; [exact IH|].
    intros [hole_ring nested] [_ Hodd]. exact Hodd.
  - rewrite app_nil_r. apply flat_map_Permutation.
    eapply Forall_impl; [exact IH|].
    intros hole [Heven _]. exact Heven.
Qed.

Lemma emitted_at_even_depth (forest : list ctree) :
  Permutation (flat_map (emitted false) forest)
              (polygons_at_even_depth forest).
Proof.
  apply flat_map_Permutation, Forall_forall.
  intros t _. apply emitted_polygons.
Qed.

Lemma not_degenerate (ring : contour) :
  (3 <= length ring)%nat -> degenerate ring = false.
Proof. intros H. unfold degenerate. apply Z.ltb_ge. lia. Qed.

(** C3.  When the contour list and the hierarchy spell out a forest of
    nested contours (as the arrays of [cv2.findContours] do), the conversion
    started with [is_hole = False] finishes and appends, up to the order of
    appending, exactly one polygon feature per contour at even depth that
    has at least 3 points, with the rings of its children that have at
    least 3 points as holes; [current_holes] is left as it was.  A contour
    with fewer than 3 points contributes nothing, nor does anything nested
    in it.  For an outer contour with one nested contour, both of at least 3
    points, [_create_vlayer_from_mask] produces exactly one feature, with
    exactly one hole ring. *)
Theorem contours_become_polygons_with_holes
    (cv_contours : list contour) (hierarchy : list hierarchy_row)
    (i : Z) (forest : list ctree) :
  represents cv_contours hierarchy i forest ->
  (exists fuel0 out,
     Permutation out (polygons_at_even_depth forest) /\
     forall fuel features holes, (fuel0 <= fuel)%nat ->
       _convert_cv_contours_to_features fuel features cv_contours hierarchy
         i false holes
       = Done (features ++ out, holes)) /\
  (forall ring children siblings,
     forest = CNode ring children :: siblings -> (length ring < 3)%nat ->
     polygons_at_even_depth forest = polygons_at_even_depth siblings) /\
  (forall extent upp outer inner,
     (3 <= length outer)%nat -> (3 <= length inner)%nat ->
     exists fuel0 ring hole,
       transform_contours_yx_pixels_to_target_crs extent upp [outer; inner]
       = [ring; hole] /\
       forall fuel, (fuel0 <= fuel)%nat ->
         _create_vlayer_from_mask fuel extent upp
           ([outer; inner], one_hole_hierarchy)
         = Done [mkFeature [ring; hole]]).
Proof.
  intros Hrep. split; [|split].
  - destruct (convert_represents _ _ _ _ Hrep) as [fuel0 H].
    exists fuel0, (flat_map (emitted false) forest).
    split; [apply emitted_at_even_depth|].
    intros fuel features holes Hf.
    destruct (H fuel features false holes Hf) as [E _].
    cbv zeta in E. now rewrite app_nil_r in E.
  - intros ring children siblings -> Hshort.
    unfold polygons_at_even_depth. cbn [flat_map polygons_of].
    replace (degenerate ring) with true; [reflexivity|].
    symmetry. apply Z.ltb_lt. lia.
  - intros ext upp outer inner Ho Hi.
    set (cs := transform_contours_yx_pixels_to_target_crs ext upp
                 [outer; inner]).
    destruct cs as [|ring [|hole [|]]] eqn:Ecs; try discriminate.
    assert (Hring : (3 <= length ring)%nat).
    { injection Ecs as <- _. now rewrite length_map. }
    assert (Hhole : (3 <= length hole)%nat).
    { injection Ecs as _ <-. now rewrite length_map. }
    assert (Hr : represents [ring; hole] one_hole_hierarchy 0
                   [CNode ring [CNode hole []]]).
    { apply represents_node with (row := (-1, -1, 1, -1));
        [lia | reflexivity | reflexivity | | apply represents_none].
      change (row2 (-1, -1, 1, -1)) with 1.
      apply represents_node with (row := (-1, -1, -1, 0));
        [lia | reflexivity | reflexivity | apply represents_none
        | apply represents_none]. }
    destruct (convert_represents _ _ _ _ Hr) as [fuel0 H].
    exists fuel0, ring, hole. split; [reflexivity|].
    intros fuel Hf. unfold _create_vlayer_from_mask. fold cs. rewrite Ecs.
    cbn [length Nat.eqb negb].
    destruct (H fuel [] false [] Hf) as [E _]. cbv zeta in E. rewrite E.
    cbn [mbind run_bind mret run_ret app flat_map emitted negb].
    rewrite (not_degenerate ring Hring), (not_degenerate hole Hhole).
    unfold rings_of. cbn [filter list_filter ring_of].
    rewrite (not_degenerate hole Hhole). reflexivity.
Qed.

Lemma contours_become_polygons_with_holes_witness :
  let ring := map (fun p : Z * Z => mkPoint (inject_Z p.1) (inject_Z p.2))
                  square_px in
  let hole := map (fun p : Z * Z => mkPoint (inject_Z p.1) (inject_Z p.2))
                  inner_square_px in
  let forest := [CNode ring [CNode hole []]] in
  (exists fuel0 out,
     Permutation out (polygons_at_even_depth forest) /\
     forall fuel features holes, (fuel0 <= fuel)%nat ->
       _convert_cv_contours_to_features fuel features [ring; hole]
         one_hole_hierarchy 0 false holes
       = Done (features ++ out, holes)) /\
  (forall ring' children siblings,
     forest = CNode ring' children :: siblings -> (length ring' < 3)%nat ->
     polygons_at_even_depth forest = polygons_at_even_depth siblings) /\
  (forall extent upp outer inner,
     (3 <= length outer)%nat -> (3 <= length inner)%nat ->
     exists fuel0 ring' hole',
       transform_contours_yx_pixels_to_target_crs extent upp [outer; inner]
       = [ring'; hole'] /\
       forall fuel, (fuel0 <= fuel)%nat ->
         _create_vlayer_from_mask fuel extent upp
           ([outer; inner], one_hole_hierarchy)
         = Done [mkFeature [ring'; hole']]).
Proof.
  intros ring hole forest.
  apply (contours_become_polygons_with_holes [ring; hole] one_hole_hierarchy
           0 forest).
  apply represents_node with (row := (-1, -1, 1, -1)).
  - lia.
  - reflexivity.
  - reflexivity.
  - apply represents_node with (row := (-1, -1, -1, 0)).
    + cbn. lia.
    + reflexivity.
    + reflexivity.
    + apply represents_none.
    + apply represents_none.
  - apply represents_none.
Defined.

(** ** Copying a tile into the full image *)

Lemma slice_indices_inside (s : slice) (len : Z) :
  0 <= start s -> start s <= stop s -> stop s <= len ->
  slice_indices s len = (start s, stop s) /\
  slice_length s len = stop s - start s.
Proof.
  intros H0 H1 H2. unfold slice_length, slice_indices. cbn [fst snd].
  replace (start s <? 0) with false by (symmetry; apply Z.ltb_ge; lia).
  replace (stop s <? 0) with false by (symmetry; apply Z.ltb_ge; lia).
  split; [f_equal; lia | lia].
Qed.

Lemma tile_slices (ip : InferenceParameters) (xbs ybs col row : Z) (upp : Q)
    (ext : QgsRectangle) :
  let tp := TileParams.__init__ col row xbs ybs ip upp ext in
  TileParams.get_slice_on_full_image_for_copying tp
  = (axis_core (tile_size_px ip) (processing_stride_px ip) ybs row,
     axis_core (tile_size_px ip) (processing_stride_px ip) xbs col) /\
  TileParams.start_pixel_x tp = col * processing_stride_px ip /\
  TileParams.start_pixel_y tp = row * processing_stride_px ip.
Proof. repeat split. Qed.

(** The copy step has two outcomes.  Either the block that the
    tile-local slice selects from the mask (clipped to the mask) can be
    broadcast to the block selected on the full image: then the step
    completes, and the full image keeps its shape, the run its log and its
    poll count.  Or it cannot: then numpy's [ValueError] is raised and
    nothing at all has changed, the full image included.  No other
    exception leaves this step, and no size is compared with
    [tile_size_px]. *)
Theorem set_mask_on_full_img_outcomes
    (tile_result : ndarray2) (tp : TileParams.t) (st : stitching) :
  let roi := TileParams.get_slice_on_full_image_for_copying tp in
  let block :=
    getitem2 tile_result
      (TileParams.get_slice_on_tile_image_for_copying tp (Some roi)) in
  let fits :=
    broadcastable block (slice_length roi.1 (nrows (full_result_img st)))
                        (slice_length roi.2 (ncols (full_result_img st))) in
  let r := _set_mask_on_full_img (R := bool) tile_result tp st in
  (fits = true /\ r.1 = Next tt /\
   nrows (full_result_img r.2) = nrows (full_result_img st) /\
   ncols (full_result_img r.2) = ncols (full_result_img st) /\
   polls r.2 = polls st /\ log r.2 = log st) \/
  (fits = false /\ r = (Raised ValueError, st)).
Proof.
  intros roi block fits r. subst r.
  unfold _set_mask_on_full_img, setitem2.
  fold roi. fold block. fold fits.
  destruct fits; [left | right]; cbn; auto 10.
Qed.

(** For a tile of a grid with even overlap and a full image of the size of
    the grid, a mask of at least [tile_size_px] rows and columns (a larger
    one included) is copied without error: inside the core region of the
    tile the full image takes the cells of the mask at the tile-local
    position, everywhere else it keeps its cells. *)
Theorem set_mask_on_full_img_copies_core
    (ip : InferenceParameters) (xbs ybs col row : Z) (upp : Q)
    (ext : QgsRectangle) (tile_result : ndarray2) (st : stitching) :
  let tp := TileParams.__init__ col row xbs ybs ip upp ext in
  0 < tile_size_px ip ->
  0 < processing_stride_px ip <= tile_size_px ip ->
  Z.even (tile_size_px ip - processing_stride_px ip) = true ->
  0 <= col < xbs -> 0 <= row < ybs ->
  nrows (full_result_img st) = grid_size_px ip ybs ->
  ncols (full_result_img st) = grid_size_px ip xbs ->
  tile_size_px ip <= nrows tile_result ->
  tile_size_px ip <= ncols tile_result ->
  exists img,
    _set_mask_on_full_img (R := bool) tile_result tp st
    = (Next tt, mkStitching img (polls st) (log st)) /\
    nrows img = nrows (full_result_img st) /\
    ncols img = ncols (full_result_img st) /\
    (forall x y, in_core ip xbs ybs col row x y ->
       cell img y x = cell tile_result (y - row * processing_stride_px ip)
                                       (x - col * processing_stride_px ip)) /\
    (forall x y, ~ in_core ip xbs ybs col row x y ->
       cell img y x = cell (full_result_img st) y x).
Proof.
  intros tp.
  set (roi := TileParams.get_slice_on_full_image_for_copying tp).
  intros Ht [Hs Hst] Hev Hc Hr Hrows Hcols Hmr Hmc.
  set (T := tile_size_px ip) in *. set (S' := processing_stride_px ip) in *.
  destruct (tile_slices ip xbs ybs col row upp ext) as (Eroi & Esx & Esy).
  fold tp T S' in Eroi, Esx, Esy.
  assert (Hybs : 1 <= ybs) by lia. assert (Hxbs : 1 <= xbs) by lia.
  assert (By : 0 <= start (axis_core T S' ybs row) /\
               start (axis_core T S' ybs row) < stop (axis_core T S' ybs row) /\
               stop (axis_core T S' ybs row) <= (ybs - 1) * S' + T)
    by (apply axis_core_bounds; auto).
  assert (Bx : 0 <= start (axis_core T S' xbs col) /\
               start (axis_core T S' xbs col) < stop (axis_core T S' xbs col) /\
               stop (axis_core T S' xbs col) <= (xbs - 1) * S' + T)
    by (apply axis_core_bounds; auto).
  assert (Ly : row * S' <= start (axis_core T S' ybs row) /\
               stop (axis_core T S' ybs row) <= row * S' + T).
  { assert (H2 : 2 * ((T - S') / 2) = T - S')
      by (apply half_overlap_twice; auto).
    unfold axis_core; cbn [start stop].
    destruct (row =? 0), (row =? ybs - 1); lia. }
  assert (Lx : col * S' <= start (axis_core T S' xbs col) /\
               stop (axis_core T S' xbs col) <= col * S' + T).
  { assert (H2 : 2 * ((T - S') / 2) = T - S')
      by (apply half_overlap_twice; auto).
    unfold axis_core; cbn [start stop].
    destruct (col =? 0), (col =? xbs - 1); lia. }
  set (sy := axis_core T S' ybs row) in *.
  set (sx := axis_core T S' xbs col) in *.
  unfold grid_size_px in Hrows, Hcols. fold T S' in Hrows, Hcols.
  destruct (slice_indices_inside sy (nrows (full_result_img st)))
    as [Iy Ny]; [lia | lia | lia |].
  destruct (slice_indices_inside sx (ncols (full_result_img st)))
    as [Ix Nx]; [lia | lia | lia |].
  set (ty := mkSlice (start sy - row * S') (stop sy - row * S')).
  set (tx := mkSlice (start sx - col * S') (stop sx - col * S')).
  destruct (slice_indices_inside ty (nrows tile_result))
    as [Jy My]; [unfold ty; cbn [start stop]; lia ..|].
  destruct (slice_indices_inside tx (ncols tile_result))
    as [Jx Mx]; [unfold tx; cbn [start stop]; lia ..|].
  unfold _set_mask_on_full_img, setitem2.
  fold tp. fold roi. subst roi. rewrite Eroi.
  unfold TileParams.get_slice_on_tile_image_for_copying.
  cbn [fst snd]. rewrite Esx, Esy. fold ty tx.
  unfold broadcastable, getitem2. cbn [fst snd nrows ncols cell].
  rewrite Iy, Ix, Ny, Nx, Jy, Jx, My, Mx. cbn [fst snd start stop ty tx].
  replace (stop sy - row * S' - (start sy - row * S') =? stop sy - start sy)
    with true by (symmetry; apply Z.eqb_eq; lia).
  replace (stop sx - col * S' - (start sx - col * S') =? stop sx - start sx)
    with true by (symmetry; apply Z.eqb_eq; lia).
  cbn [orb andb]. eexists. split; [reflexivity|]. cbn [cell nrows ncols].
  split; [reflexivity|]. split; [reflexivity|].
  assert (Hcore : forall x y, in_core ip xbs ybs col row x y <->
                    (start sy <= y < stop sy) /\ (start sx <= x < stop sx)).
  { intros x y. unfold in_core, in_slice.
    rewrite core_columns, core_rows. fold T S' sx sy. tauto. }
  split.
  + intros x y Hin. apply Hcore in Hin.
    replace ((start sy <=? y) && (y <? start sy + (stop sy - start sy))
             && (start sx <=? x) && (x <? start sx + (stop sx - start sx)))
      with true
      by (symmetry; rewrite !andb_true_iff, !Z.leb_le, !Z.ltb_lt; lia).
    f_equal.
    * destruct (Z.eqb_spec (stop sy - row * S' - (start sy - row * S')) 1);
        lia.
    * destruct (Z.eqb_spec (stop sx - col * S' - (start sx - col * S')) 1);
        lia.
  + intros x y Hout.
    destruct ((start sy <=? y) && (y <? start sy + (stop sy - start sy))
             && (start sx <=? x) && (x <? start sx + (stop sx - start sx)))
      eqn:E; [|reflexivity].
    exfalso. apply Hout, Hcore.
    rewrite !andb_true_iff, !Z.leb_le, !Z.ltb_lt in E. lia.
Qed.

Lemma set_mask_on_full_img_copies_core_witness :
  exists img,
    _set_mask_on_full_img (R := bool) big_mask
      (TileParams.__init__ 0 0 1 1 two_px_params 1 (mkRect 0 0 2 2))
      (mkStitching (mkArr2 2 2 (fun _ _ => 0)) 0 [])
    = (Next tt, mkStitching img 0%nat []) /\
    nrows img = 2 /\ ncols img = 2 /\
    (forall x y, in_core two_px_params 1 1 0 0 x y ->
       cell img y x = cell big_mask (y - 0 * 2) (x - 0 * 2)) /\
    (forall x y, ~ in_core two_px_params 1 1 0 0 x y -> cell img y x = 0).
Proof.
  apply (set_mask_on_full_img_copies_core two_px_params 1 1 0 0 1
           (mkRect 0 0 2 2) big_mask
           (mkStitching (mkArr2 2 2 (fun _ _ => 0)) 0 []));
    cbn; first [lia | reflexivity].
Defined.

(** ** The stitching loop *)

Lemma range_succ (m : Z) : 0 <= m -> range (m + 1) = range m ++ [m].
Proof.
  intros Hm. unfold range.
  replace (Z.to_nat (m + 1)) with (Z.to_nat m + 1)%nat by lia.
  rewrite seq_app, map_app. cbn [seq map]. f_equal. f_equal. lia.
Qed.

Lemma range_nonpos (m : Z) : m <= 0 -> range m = [].
Proof.
  intros Hm. unfold range. now replace (Z.to_nat m) with 0%nat by lia.
Qed.

(** The invariant rule of [for x in range(n)]: an invariant indexed by
    the number of completed turns, and a condition for leaving the loop by
    [return] or by an exception. *)
Lemma for_each_range_inv {St R} (n : Z) (body : Z -> M St R unit)
    (Inv : Z -> St -> Prop) (Stop : completion R unit -> St -> Prop) :
  (forall k st, 0 <= k < n -> Inv k st ->
     match body k st with
     | (Next _, st') => Inv (k + 1) st'
     | (c, st') => Stop c st'
     end) ->
  forall st, Inv 0 st ->
    match for_each (range n) body st with
    | (Next _, st') => Inv (Z.max n 0) st'
    | (c, st') => Stop c st'
    end.
Proof.
  intros Hbody.
  assert (H : forall m a st,
    Z.of_nat (a + m) = Z.max n 0 -> Inv (Z.of_nat a) st ->
    match for_each (map Z.of_nat (seq a m)) body st with
    | (Next _, st') => Inv (Z.max n 0) st'
    | (c, st') => Stop c st'
    end).
  { induction m as [|m IH]; intros a st Hlen Hinv.
    - cbn. now replace (Z.max n 0) with (Z.of_nat a) by lia.
    - cbn [seq map for_each]. unfold seq_ at 1.
      pose proof (Hbody (Z.of_nat a) st ltac:(lia) Hinv) as Hb.
      destruct (body (Z.of_nat a) st) as [[[]|r|e] st']; try exact Hb.
      apply IH; [lia|].
      now replace (Z.of_nat (S a)) with (Z.of_nat a + 1) by lia. }
  intros st Hinv. unfold range. apply H; [lia | exact Hinv].
Qed.

Lemma reported_app (l1 l2 : list event) :
  reported (l1 ++ l2) = reported l1 ++ reported l2.
Proof. apply omap_app. Qed.

Lemma reported_tile_events (total : Z) (l : list Z) :
  reported (flat_map (tile_events total) l) = map (progress_of total) l.
Proof.
  induction l as [|k l IH]; [reflexivity|].
  cbn [flat_map map]. rewrite reported_app, IH. reflexivity.
Qed.

Lemma progress_of_mono (total a b : Z) :
  0 < total -> a <= b ->
  (progress_of total a <= progress_of total b)%Q.
Proof.
  intros Ht Hab. unfold progress_of.
  assert (Hinv : (0 < / inject_Z total)%Q).
  { apply Qinv_lt_0_compat. change 0%Q with (inject_Z 0).
    now rewrite <- Zlt_Qlt. }
  rewrite Zle_Qle in Hab. unfold Qdiv.
  apply Qmult_le_compat_r; [|discriminate].
  apply Qmult_le_compat_r; [exact Hab | now apply Qlt_le_weak].
Qed.

Lemma progress_of_range (total k : Z) :
  0 <= k < total ->
  (0 <= progress_of total k)%Q /\ (progress_of total k < 100)%Q.
Proof.
  intros [H0 Hk]. unfold progress_of.
  assert (Ht : (0 < inject_Z total)%Q).
  { change 0%Q with (inject_Z 0). rewrite <- Zlt_Qlt. lia. }
  assert (Hq0 : (0 <= inject_Z k / inject_Z total)%Q).
  { apply Qle_shift_div_l; [exact Ht|]. rewrite Qmult_0_l.
    change 0%Q with (inject_Z 0). now rewrite <- Zle_Qle. }
  assert (Hq1 : (inject_Z k / inject_Z total < 1)%Q).
  { apply Qlt_shift_div_r; [exact Ht|]. rewrite Qmult_1_l.
    now rewrite <- Zlt_Qlt. }
  split; lra.
Qed.

Lemma range_lookup (n : Z) (i : nat) (k : Z) :
  range n !! i = Some k -> k = Z.of_nat i /\ 0 <= k < n.
Proof.
  unfold range. rewrite list_lookup_fmap.
  destruct (seq 0 (Z.to_nat n) !! i) as [j|] eqn:E; [|discriminate].
  apply lookup_seq in E. cbn. intros [= <-]. lia.
Qed.

Lemma progress_non_decreasing (total k : Z) :
  k <= Z.max total 0 ->
  non_decreasing (map (progress_of total) (range k)).
Proof.
  intros Hk i j a b Hij Ha Hb.
  rewrite list_lookup_fmap in Ha, Hb.
  destruct (range k !! i) as [ki|] eqn:Ei; [|discriminate].
  destruct (range k !! j) as [kj|] eqn:Ej; [|discriminate].
  apply range_lookup in Ei, Ej. cbn in Ha, Hb.
  injection Ha as <-. injection Hb as <-.
  apply progress_of_mono; lia.
Qed.

Section StitcherFacts.
Context {image : Type}.
Variable isCanceled : nat -> bool.
Variable _get_image :
  QgsRasterLayer.t -> QgsRectangle -> InferenceParameters -> result image.
Variable process_tile : image -> result ndarray2.
Variable morphologyEx : MorphOp -> Z -> ndarray2 -> ndarray2.

Lemma process_one_tile_log (self : MapProcessor.t) (total y x : Z)
    (st : stitching) :
  total <> 0 ->
  let tile_no := y * MapProcessor.x_bins_number self + x in
  match process_one_tile isCanceled _get_image process_tile self total y x st
  with
  | (Next _, st') => log st' = log st ++ tile_events total tile_no
  | (Return r, st') => r = false /\ log st' = log st ++ [IsCanceled true]
  | (Raised e, st') =>
      exists tail, In tail (tl (stopped_tile_events total tile_no)) /\
                   log st' = log st ++ tail
  end.
Proof.
  intros Htotal tile_no. unfold process_one_tile.
  fold tile_no. unfold seq_ at 1.
  destruct (isCanceled (polls st)) eqn:Ecancel.
  { cbn. auto. }
  unfold seq_ at 1. unfold next at 1. unfold seq_ at 1, lift at 1.
  rewrite py_truediv_ok
    by (intros E; apply Htotal; apply (inject_Z_injective total 0); exact E).
  unfold seq_ at 1, emit at 1. cbn [full_result_img polls log].
  unfold seq_ at 1, lift at 1.
  destruct (_get_image _ _ _) as [tile_img|e].
  2:{ eexists. split; [left; reflexivity|]. rewrite <- app_assoc. reflexivity. }
  unfold seq_ at 1, emit at 1. cbn [full_result_img polls log].
  unfold seq_ at 1, lift at 1.
  destruct (process_tile tile_img) as [tile_result|e].
  2:{ eexists. split; [right; left; reflexivity|].
      rewrite <- !app_assoc. reflexivity. }
  unfold seq_ at 1, emit at 1. cbn [full_result_img polls log].
  unfold seq_ at 1.
  match goal with
  | |- context [_set_mask_on_full_img ?m ?tp ?s] =>
      pose proof (set_mask_on_full_img_outcomes m tp s) as Hcopy;
      cbv zeta in Hcopy;
      destruct (_set_mask_on_full_img (R := bool) m tp s) as [c st'] eqn:Ecopy
  end.
  destruct Hcopy as [(_ & Hc & _ & _ & _ & Hlog) | (_ & Hc)].
  - cbn [fst snd] in Hc, Hlog. subst c. unfold emit.
    cbn [log]. rewrite Hlog. cbn [log]. rewrite <- !app_assoc. reflexivity.
  - injection Hc as -> ->. eexists. split; [right; right; left; reflexivity|].
    cbn [log]. rewrite <- !app_assoc. reflexivity.
Qed.

Lemma process_log (self : MapProcessor.t) (st0 : stitching) :
  let X := MapProcessor.x_bins_number self in
  let Y := MapProcessor.y_bins_number self in
  let total := X * Y in
  let '(c, st) :=
    _process isCanceled _get_image process_tile morphologyEx self st0 in
  exists n tail,
    log st = log st0 ++ flat_map (tile_events total) (range n) ++ tail /\
    0 <= n /\
    match c with
    | Return true =>
        tail = [CreateVlayer] /\ 1 <= total /\
        n = (if 0 <? Y then total else 0)
    | Return false => tail = [IsCanceled true] /\ n < total
    | Raised e =>
        (tail = [] /\ n = 0) \/
        (n < total /\ In tail (tl (stopped_tile_events total n)))
    | Next _ => False
    end.
Proof.
  intros X Y total. unfold _process. fold X Y. fold total.
  unfold seq_ at 1, lift at 1.
  destruct (np_zeros _) as [zeros|e].
  2:{ exists 0, []. cbn. rewrite app_nil_r.
      split; [reflexivity|]. split; [lia|]. left; auto. }
  unfold seq_ at 1. cbn [polls log].
  unfold seq_ at 1.
  destruct (Z.ltb_spec total 1) as [Hlt | Hge].
  { exists 0, []. cbn. rewrite app_nil_r.
    split; [reflexivity|]. split; [lia|]. left; auto. }
  unfold next at 1. unfold seq_ at 1.
  set (st1 := mkStitching zeros (polls st0) (log st0)).
  set (F := flat_map (tile_events total)).
  set (Stop := fun (c : completion bool unit) (st : stitching) =>
    exists n tail, 0 <= n < total /\
      log st = log st0 ++ F (range n) ++ tail /\
      ((c = Return false /\ tail = [IsCanceled true]) \/
       (exists e, c = Raised e /\
                  In tail (tl (stopped_tile_events total n))))).
  pose proof (for_each_range_inv Y
    (fun y_bin_number =>
       for_each (range X) (fun x_bin_number =>
         process_one_tile isCanceled _get_image process_tile self total
           y_bin_number x_bin_number))
    (fun y st => log st = log st0 ++ F (range (y * X))) Stop) as Houter.
  cbv beta in Houter.
  assert (Hbody : forall y st, 0 <= y < Y ->
    log st = log st0 ++ F (range (y * X)) ->
    match for_each (range X) (fun x_bin_number =>
            process_one_tile isCanceled _get_image process_tile self total
              y x_bin_number) st with
    | (Next _, st') => log st' = log st0 ++ F (range ((y + 1) * X))
    | (c, st') => Stop c st'
    end).
  { intros y st Hy Hinv.
    assert (HX : 1 <= X) by (subst total; nia).
    pose proof (for_each_range_inv X
      (fun x_bin_number =>
         process_one_tile isCanceled _get_image process_tile self total
           y x_bin_number)
      (fun k st => log st = log st0 ++ F (range (y * X + k))) Stop) as Hinner.
    cbv beta in Hinner.
    assert (Hstep : forall k st, 0 <= k < X ->
      log st = log st0 ++ F (range (y * X + k)) ->
      match process_one_tile isCanceled _get_image process_tile self total
              y k st with
      | (Next _, st') => log st' = log st0 ++ F (range (y * X + (k + 1)))
      | (c, st') => Stop c st'
      end).
    { intros k st2 Hk Hk_inv.
      pose proof (process_one_tile_log self total y k st2 ltac:(lia)) as Hone.
      cbv zeta in Hone. fold X in Hone.
      assert (Hn : 0 <= y * X + k < total) by (subst total; nia).
      destruct (process_one_tile _ _ _ _ _ _ _ _) as [[[]|ret|e] st'].
      - rewrite Hone, Hk_inv.
        replace (y * X + (k + 1)) with (y * X + k + 1) by lia.
        rewrite range_succ by lia. unfold F.
        rewrite flat_map_app. cbn [flat_map]. rewrite app_nil_r.
        now rewrite app_assoc.
      - destruct Hone as [-> Hlog]. exists (y * X + k), [IsCanceled true].
        split; [exact Hn|]. split; [|left; auto].
        rewrite Hlog, Hk_inv. now rewrite <- app_assoc.
      - destruct Hone as (tail & Hin & Hlog). exists (y * X + k), tail.
        split; [exact Hn|]. split; [|right; eauto].
        rewrite Hlog, Hk_inv. now rewrite <- app_assoc. }
    specialize (Hinner Hstep st).
    replace (y * X + 0) with (y * X) in Hinner by lia.
    specialize (Hinner Hinv).
    destruct (for_each (range X) _ st) as [[[]|ret|e] st']; try exact Hinner.
    replace (Z.max X 0) with X in Hinner by lia.
    now replace ((y + 1) * X) with (y * X + X) by lia. }
  specialize (Houter Hbody st1).
  assert (H0 : log st1 = log st0 ++ F (range (0 * X))).
  { cbn [log st1]. rewrite range_nonpos by lia. cbn. now rewrite app_nil_r. }
  specialize (Houter H0).
  destruct (for_each (range Y) _ st1) as [[[]|ret|e] st'].
  - unfold seq_, emit, return_. cbn [fst snd log].
    exists (Z.max Y 0 * X), [CreateVlayer].
    split; [rewrite Houter; now rewrite <- app_assoc|].
    split; [nia|]. split; [reflexivity|]. split; [lia|].
    destruct (Z.ltb_spec 0 Y).
    + replace (Z.max Y 0) with Y by lia. subst total. lia.
    + replace (Z.max Y 0) with 0 by lia. lia.
  - destruct Houter as (n & tail & Hn & Hlog & [[Hret ->] | (e & He & _)]);
      [|discriminate].
    injection Hret as ->.
    exists n, [IsCanceled true]. cbn [fst snd]. repeat split; (lia || exact Hlog).
  - destruct Houter as (n & tail & Hn & Hlog & [[He _] | (e' & He & Hin)]);
      [discriminate|].
    exists n, tail. cbn [fst snd]. split; [exact Hlog|]. split; [lia|].
    right. split; [lia | exact Hin].
Qed.

(** The run of [_process], as its log shows it.  The tiles are taken in
    row-major order, numbered [0, 1, ...]; each tile taken to its end
    leaves the five events of [tile_events], the progress report first.
    A run that returns [True] has taken every tile of the grid once and
    then handed the mask over; a run that returns [False] stopped at a poll
    answered with true, before touching that tile; a run that raises
    stopped either before the first tile or inside one tile, after its
    progress was reported. *)
Theorem process_takes_tiles_in_row_major_order
    (self : MapProcessor.t) (st0 : stitching) :
  let X := MapProcessor.x_bins_number self in
  let Y := MapProcessor.y_bins_number self in
  let total := X * Y in
  let r := _process isCanceled _get_image process_tile morphologyEx self st0 in
  exists n tail,
    log r.2 = log st0 ++ flat_map (tile_events total) (range n) ++ tail /\
    0 <= n /\
    match r.1 with
    | Return true =>
        tail = [CreateVlayer] /\ 1 <= total /\
        n = (if 0 <? Y then total else 0)
    | Return false => tail = [IsCanceled true] /\ n < total
    | Raised e =>
        (tail = [] /\ n = 0) \/
        (n < total /\ In tail (tl (stopped_tile_events total n)))
    | Next _ => False
    end.
Proof.
  intros X Y total r. subst r.
  pose proof (process_log self st0) as H. cbv zeta in H.
  destruct (_process _ _ _ _ _ _) as [c st]. exact H.
Qed.


(** The progress of a run.  The values passed to [setProgress] are, in
    order, [tile_no / total_tiles * 100] for the tiles [0, 1, ..., k - 1]
    that the run started; they never decrease, they start at 0 and stay
    below 100: the loop itself never reports a finished run. *)
Theorem process_reports_progress_of_started_tiles
    (self : MapProcessor.t) (st0 : stitching) :
  let total :=
    MapProcessor.x_bins_number self * MapProcessor.y_bins_number self in
  let r := _process isCanceled _get_image process_tile morphologyEx self st0 in
  exists events k,
    log r.2 = log st0 ++ events /\
    0 <= k <= Z.max total 0 /\
    reported events = map (progress_of total) (range k) /\
    non_decreasing (reported events) /\
    (forall p, In p (reported events) -> (0 <= p)%Q /\ (p < 100)%Q).
Proof.
  intros total r. subst r.
  pose proof (process_log self st0) as H. cbv zeta in H. fold total in H.
  destruct (_process _ _ _ _ _ _) as [c st]. cbn [fst snd].
  destruct H as (n & tail & Hlog & Hn & Hc).
  assert (Hk : exists k, 0 <= k <= Z.max total 0 /\
            reported (flat_map (tile_events total) (range n) ++ tail)
            = map (progress_of total) (range k)).
  { rewrite reported_app, reported_tile_events.
    assert (Hplain : reported tail = [] -> n <= Z.max total 0 ->
              exists k, 0 <= k <= Z.max total 0 /\
                map (progress_of total) (range n) ++ reported tail
                = map (progress_of total) (range k)).
    { intros -> Hle. exists n. rewrite app_nil_r. split; [lia | reflexivity]. }
    assert (Hone : reported tail = [progress_of total n] -> n < total ->
              exists k, 0 <= k <= Z.max total 0 /\
                map (progress_of total) (range n) ++ reported tail
                = map (progress_of total) (range k)).
    { intros -> Hlt. exists (n + 1). split; [lia|].
      rewrite range_succ by lia. now rewrite map_app. }
    destruct c as [[]|[|]|e].
    - contradiction.
    - destruct Hc as (-> & Ht & ->). apply Hplain; [reflexivity|].
      destruct (0 <? MapProcessor.y_bins_number self); lia.
    - destruct Hc as (-> & Hlt). apply Hplain; [reflexivity | lia].
    - destruct Hc as [[-> ->] | [Hlt Hin]]; [apply Hplain; [reflexivity|lia]|].
      cbn in Hin. destruct Hin as [<- | [<- | [<- | []]]];
        apply Hone; (reflexivity || lia). }
  destruct Hk as (k & Hkr & Hrep).
  exists (flat_map (tile_events total) (range n) ++ tail), k.
  split; [exact Hlog|]. split; [exact Hkr|]. split; [exact Hrep|].
  rewrite Hrep. split.
  - apply progress_non_decreasing. lia.
  - intros p Hp. apply in_map_iff in Hp. destruct Hp as (i & <- & Hi).
    apply list_elem_of_In, list_elem_of_lookup in Hi. destruct Hi as [j Hj].
    apply range_lookup in Hj. apply progress_of_range. lia.
Qed.


Section Stitched.
Variable self : MapProcessor.t.
Let ip := MapProcessor.inference_parameters self.
Let X := MapProcessor.x_bins_number self.
Let Y := MapProcessor.y_bins_number self.
Let tile_of (col row : Z) : TileParams.t :=
  TileParams.__init__ col row X Y ip (MapProcessor.rlayer_units_per_pixel self)
    (MapProcessor.extended_extent self).

(** The mask that the run computes for the tile [(col, row)]. *)
Let tile_mask (col row : Z) (mask : ndarray2) : Prop :=
  exists img,
    _get_image (MapProcessor.rlayer self)
      (TileParams.extent (tile_of col row)) ip = Ok img /\
    process_tile img = Ok mask.

Hypothesis tile_pos : 0 < tile_size_px ip.
Hypothesis stride_ok : 0 < processing_stride_px ip <= tile_size_px ip.
Hypothesis overlap_even :
  Z.even (tile_size_px ip - processing_stride_px ip) = true.
Hypothesis X_pos : 1 <= X.
Hypothesis Y_pos : 1 <= Y.
Hypothesis masks_cover_tile : forall img mask,
  process_tile img = Ok mask ->
  tile_size_px ip <= nrows mask /\ tile_size_px ip <= ncols mask.

Let stitched_upto (done : Z -> Z -> Prop) (img : ndarray2) : Prop :=
  nrows img = grid_size_px ip Y /\ ncols img = grid_size_px ip X /\
  forall col row x y,
    0 <= col < X -> 0 <= row < Y -> done col row ->
    in_core ip X Y col row x y ->
    exists mask, tile_mask col row mask /\
      cell img y x = cell mask (y - row * processing_stride_px ip)
                               (x - col * processing_stride_px ip).

Lemma in_core_one_tile col row col' row' x y :
  0 <= col < X -> 0 <= row < Y -> 0 <= col' < X -> 0 <= row' < Y ->
  in_core ip X Y col row x y -> in_core ip X Y col' row' x y ->
  col = col' /\ row = row'.
Proof using tile_pos stride_ok overlap_even X_pos Y_pos.
  intros Hc Hr Hc' Hr' [Hx Hy] [Hx' Hy'].
  rewrite core_columns in Hx, Hx'. rewrite core_rows in Hy, Hy'.
  destruct stride_ok as [Hs Hst]. split.
  - apply (axis_core_unique ip) with (n := X) (i := x); auto.
  - apply (axis_core_unique ip) with (n := Y) (i := y); auto.
Qed.

Lemma process_one_tile_image (total y x : Z) (st : stitching)
    (done : Z -> Z -> Prop) :
  total <> 0 -> 0 <= x < X -> 0 <= y < Y ->
  (forall col row, done col row -> (col, row) <> (x, y)) ->
  stitched_upto done (full_result_img st) ->
  match process_one_tile isCanceled _get_image process_tile self total y x st
  with
  | (Next _, st') =>
      stitched_upto (fun col row => done col row \/ (col = x /\ row = y))
        (full_result_img st')
  | (Return ret, _) => ret = false
  | (Raised _, _) => True
  end.
Proof using tile_pos stride_ok overlap_even X_pos Y_pos masks_cover_tile.
  intros Htotal Hx Hy Hfresh (Hrows & Hcols & Hdone).
  unfold process_one_tile. unfold seq_ at 1.
  destruct (isCanceled (polls st)); [reflexivity|].
  unfold seq_ at 1. unfold next at 1. unfold seq_ at 1, lift at 1.
  rewrite py_truediv_ok
    by (intros E; apply Htotal; apply (inject_Z_injective total 0); exact E).
  unfold seq_ at 1, emit at 1. cbn [full_result_img polls log].
  unfold seq_ at 1, lift at 1. fold ip X Y. fold (tile_of x y).
  destruct (_get_image _ _ _) as [tile_img|e] eqn:Eimg; [|exact I].
  unfold seq_ at 1, emit at 1. cbn [full_result_img polls log].
  unfold seq_ at 1, lift at 1.
  destruct (process_tile tile_img) as [mask|e] eqn:Emask; [|exact I].
  unfold seq_ at 1, emit at 1. cbn [full_result_img polls log].
  unfold seq_ at 1.
  destruct (masks_cover_tile _ _ Emask) as [Hmr Hmc].
  match goal with
  | |- context [_set_mask_on_full_img mask (tile_of x y) ?s] =>
      destruct (set_mask_on_full_img_copies_core ip X Y x y
                  (MapProcessor.rlayer_units_per_pixel self)
                  (MapProcessor.extended_extent self) mask s)
        as (img & Ecopy & Hr' & Hc' & Hin & Hout); auto
  end.
  fold (tile_of x y) in Ecopy. rewrite Ecopy. unfold emit.
  cbn [full_result_img] in *.
  split; [congruence|]. split; [congruence|].
  intros col row px py Hcol Hrow [Hd | [-> ->]] Hcore.
  - destruct (Hdone col row px py Hcol Hrow Hd Hcore) as (m & Hm & Hcell).
    exists m. split; [exact Hm|]. rewrite Hout; [exact Hcell|].
    intros Hcore'.
    destruct (in_core_one_tile col row x y px py Hcol Hrow Hx Hy Hcore Hcore')
      as [-> ->].
    now apply (Hfresh x y).
  - exists mask. split; [exists tile_img; auto|]. now apply Hin.
Qed.

Lemma process_stitches (st0 : stitching) :
  MapProcessor.img_size_x_pixels self = grid_size_px ip X ->
  MapProcessor.img_size_y_pixels self = grid_size_px ip Y ->
  let '(c, st) :=
    _process isCanceled _get_image process_tile morphologyEx self st0 in
  c = Return true ->
  exists img,
    full_result_img st = _erode_dilate_image morphologyEx self img /\
    stitched_upto (fun _ _ => True) img.
Proof using tile_pos stride_ok overlap_even X_pos Y_pos masks_cover_tile.
  intros Hw Hh. unfold _process. fold X Y. rewrite Hw, Hh.
  assert (HH : 0 < grid_size_px ip Y)
    by (unfold grid_size_px; destruct stride_ok; nia).
  assert (HW : 0 < grid_size_px ip X)
    by (unfold grid_size_px; destruct stride_ok; nia).
  unfold np_zeros. cbn [fst snd].
  replace (grid_size_px ip Y <? 0) with false
    by (symmetry; apply Z.ltb_ge; lia).
  replace (grid_size_px ip X <? 0) with false
    by (symmetry; apply Z.ltb_ge; lia).
  cbn [orb]. unfold seq_ at 1, lift at 1. unfold seq_ at 1. cbn [polls log].
  unfold seq_ at 1.
  replace (X * Y <? 1) with false by (symmetry; apply Z.ltb_ge; nia).
  unfold next at 1. unfold seq_ at 1.
  set (st1 := mkStitching _ (polls st0) (log st0)).
  pose proof (for_each_range_inv Y
    (fun y_bin_number =>
       for_each (range X) (fun x_bin_number =>
         process_one_tile isCanceled _get_image process_tile self (X * Y)
           y_bin_number x_bin_number))
    (fun y st => stitched_upto (fun col row => row < y) (full_result_img st))
    (fun c _ => c <> Return true)) as Houter.
  cbv beta in Houter.
  assert (Hbody : forall y st, 0 <= y < Y ->
    stitched_upto (fun col row => row < y) (full_result_img st) ->
    match for_each (range X) (fun x_bin_number =>
            process_one_tile isCanceled _get_image process_tile self (X * Y)
              y x_bin_number) st with
    | (Next _, st') =>
        stitched_upto (fun col row => row < y + 1) (full_result_img st')
    | (c, _) => c <> Return true
    end).
  { intros y st Hy Hinv.
    pose proof (for_each_range_inv X
      (fun x_bin_number =>
         process_one_tile isCanceled _get_image process_tile self (X * Y)
           y x_bin_number)
      (fun k st => stitched_upto
                     (fun col row => row < y \/ (row = y /\ col < k))
                     (full_result_img st))
      (fun c _ => c <> Return true)) as Hinner.
    cbv beta in Hinner.
    assert (Hstep : forall k st, 0 <= k < X ->
      stitched_upto (fun col row => row < y \/ (row = y /\ col < k))
        (full_result_img st) ->
      match process_one_tile isCanceled _get_image process_tile self (X * Y)
              y k st with
      | (Next _, st') =>
          stitched_upto (fun col row => row < y \/ (row = y /\ col < k + 1))
            (full_result_img st')
      | (c, _) => c <> Return true
      end).
    { intros k st2 Hk Hk_inv.
      pose proof (process_one_tile_image (X * Y) y k st2
                    (fun col row => row < y \/ (row = y /\ col < k))
                    ltac:(nia) Hk Hy) as Hone.
      cbv beta in Hone.
      assert (Hfresh : forall col row,
                row < y \/ (row = y /\ col < k) -> (col, row) <> (k, y))
        by (intros col row Hd [= -> ->]; lia).
      specialize (Hone Hfresh Hk_inv).
      destruct (process_one_tile _ _ _ _ _ _ _ _) as [[[]|ret|e] st'].
      - destruct Hone as (Hr & Hc & Hcells). split; [exact Hr|].
        split; [exact Hc|].
        intros col row px py Hcol Hrow Hd Hcore.
        apply (Hcells col row px py Hcol Hrow); [|exact Hcore].
        lia.
      - subst ret. discriminate.
      - discriminate. }
    specialize (Hinner Hstep st).
    assert (Hstart : stitched_upto
                       (fun col row => row < y \/ (row = y /\ col < 0))
                       (full_result_img st)).
    { destruct Hinv as (Hr & Hc & Hcells). split; [exact Hr|].
      split; [exact Hc|]. intros col row px py Hcol Hrow Hd Hcore.
      apply (Hcells col row px py Hcol Hrow); [lia | exact Hcore]. }
    specialize (Hinner Hstart).
    destruct (for_each (range X) _ st) as [[[]|ret|e] st']; try exact Hinner.
    replace (Z.max X 0) with X in Hinner by lia.
    destruct Hinner as (Hr & Hc & Hcells). split; [exact Hr|].
    split; [exact Hc|]. intros col row px py Hcol Hrow Hd Hcore.
    apply (Hcells col row px py Hcol Hrow); [lia | exact Hcore]. }
  specialize (Houter Hbody st1).
  assert (H0 : stitched_upto (fun col row => row < 0) (full_result_img st1)).
  { split; [reflexivity|]. split; [reflexivity|].
    intros col row px py Hcol Hrow Hd. lia. }
  specialize (Houter H0).
  destruct (for_each (range Y) _ st1) as [[[]|ret|e] st'].
  - unfold seq_, emit, return_. cbn [fst snd full_result_img polls log].
    intros _. exists (full_result_img st'). split; [reflexivity|].
    replace (Z.max Y 0) with Y in Houter by lia.
    destruct Houter as (Hr & Hc & Hcells). split; [exact Hr|].
    split; [exact Hc|]. intros col row px py Hcol Hrow _ Hcore.
    apply (Hcells col row px py Hcol Hrow); [lia | exact Hcore].
  - intros E. contradiction.
  - discriminate.
Qed.

End Stitched.

End StitcherFacts.

(** Stitching.  Take a grid with even overlap, an image of the size of
    the grid, and a predictor whose masks have at least [tile_size_px] rows
    and columns.  When [_process] returns [True], the image it passes on is
    the morphological filter applied to a stitched mask of the size of the
    grid in which every pixel of every core region holds the prediction of
    its own tile, read at the tile-local position: no tile has overwritten
    the core of another. *)
Theorem process_stitches_core_regions {image : Type}
    (isCanceled : nat -> bool)
    (_get_image :
       QgsRasterLayer.t -> QgsRectangle -> InferenceParameters -> result image)
    (process_tile : image -> result ndarray2)
    (morphologyEx : MorphOp -> Z -> ndarray2 -> ndarray2)
    (self : MapProcessor.t) (st0 : stitching) :
  let ip := MapProcessor.inference_parameters self in
  let X := MapProcessor.x_bins_number self in
  let Y := MapProcessor.y_bins_number self in
  let r := _process isCanceled _get_image process_tile morphologyEx self st0 in
  0 < tile_size_px ip ->
  0 < processing_stride_px ip <= tile_size_px ip ->
  Z.even (tile_size_px ip - processing_stride_px ip) = true ->
  1 <= X -> 1 <= Y ->
  MapProcessor.img_size_x_pixels self = grid_size_px ip X ->
  MapProcessor.img_size_y_pixels self = grid_size_px ip Y ->
  (forall img mask, process_tile img = Ok mask ->
     tile_size_px ip <= nrows mask /\ tile_size_px ip <= ncols mask) ->
  r.1 = Return true ->
  exists stitched,
    full_result_img r.2 = _erode_dilate_image morphologyEx self stitched /\
    nrows stitched = grid_size_px ip Y /\
    ncols stitched = grid_size_px ip X /\
    forall col row x y,
      0 <= col < X -> 0 <= row < Y -> in_core ip X Y col row x y ->
      exists img mask,
        _get_image (MapProcessor.rlayer self)
          (TileParams.extent
             (TileParams.__init__ col row X Y ip
                (MapProcessor.rlayer_units_per_pixel self)
                (MapProcessor.extended_extent self))) ip = Ok img /\
        process_tile img = Ok mask /\
        cell stitched y x = cell mask (y - row * processing_stride_px ip)
                                      (x - col * processing_stride_px ip).
Proof.
  intros ip X Y r Ht Hs Hev HX HY Hw Hh Hmasks Hret. subst r.
  pose proof (process_stitches isCanceled _get_image process_tile
                morphologyEx self Ht Hs Hev HX HY Hmasks st0 Hw Hh) as H.
  destruct (_process _ _ _ _ _ _) as [c st]. cbn [fst snd] in *.
  destruct (H Hret) as (img & Himg & Hr & Hc & Hcells).
  exists img. split; [exact Himg|]. split; [exact Hr|]. split; [exact Hc|].
  intros col row x y Hcol Hrow Hcore.
  destruct (Hcells col row x y Hcol Hrow I Hcore)
    as (mask & (tile_img & Ei & Em) & Hcell).
  exists tile_img, mask. auto.
Qed.

Lemma process_stitches_core_regions_witness :
  let r := _process never_canceled any_image predict_big_mask no_morphology
             small_processor empty_stitching in
  exists stitched,
    full_result_img r.2
    = _erode_dilate_image no_morphology small_processor stitched /\
    nrows stitched = 2 /\ ncols stitched = 2 /\
    forall col row x y,
      0 <= col < 1 -> 0 <= row < 1 ->
      in_core two_px_params 1 1 col row x y ->
      exists img mask,
        any_image small_raster
          (TileParams.extent
             (TileParams.__init__ col row 1 1 two_px_params 1
                (mkRect 0 0 2 2))) two_px_params = Ok img /\
        predict_big_mask img = Ok mask /\
        cell stitched y x = cell mask (y - row * 2) (x - col * 2).
Proof.
  apply (process_stitches_core_regions never_canceled any_image
           predict_big_mask no_morphology small_processor empty_stitching);
    try (cbn; first [lia | reflexivity]).
  intros img mask [= <-]. cbn. lia.
Defined.


(** ** Tile counts *)

Lemma py_round_ge (q : Q) (n : Z) : (inject_Z n <= q)%Q -> n <= py_round q.
Proof.
  intros H. apply Qfloor_resp_le in H. rewrite Qfloor_Z in H.
  unfold py_round. cbv zeta.
  destruct (Qcompare _ _); [destruct (Z.even _)| |]; lia.
Qed.

Lemma py_round_le (q : Q) (n : Z) : (q <= inject_Z n)%Q -> py_round q <= n.
Proof.
  intros H. pose proof (Qfloor_resp_le _ _ H) as Hf. rewrite Qfloor_Z in Hf.
  destruct (Z.eq_dec (Qfloor q) n) as [E | E].
  - assert (Hq : (q == inject_Z n)%Q).
    { pose proof (Qfloor_le q) as Hl. rewrite E in Hl. lra. }
    rewrite (py_round_comp _ _ Hq), py_round_Z. lia.
  - unfold py_round. cbv zeta.
    destruct (Qcompare _ _); [destruct (Z.even _)| |]; lia.
Qed.

Lemma bins_number_quotient (dim tile stride : Z) :
  stride <> 0 ->
  bins_number dim tile stride
  = Ok (py_round (inject_Z (dim - tile) / inject_Z stride) + 1).
Proof.
  intros Hs. unfold bins_number. rewrite py_truediv_ok; [reflexivity|].
  intros E. apply Hs. now apply (inject_Z_injective stride 0).
Qed.

(** The number of tiles along an axis, [round((size - tile) / stride) + 1].
    For a positive stride it is at least 1 when the image is at least one
    tile long, and it is the exact count, whose grid has the length of the
    image, when the length is [N * stride + tile]; it is 0 or negative when
    the image is shorter than a tile by a stride or more.  A stride of 0 is
    a division by zero. *)
Theorem bins_number_counts_tiles (dim tile stride : Z) :
  (0 < stride ->
   exists n, bins_number dim tile stride = Ok n /\
     (tile <= dim -> 1 <= n) /\
     (tile <= dim -> (dim - tile) mod stride = 0 ->
        n = (dim - tile) / stride + 1 /\ (n - 1) * stride + tile = dim) /\
     (dim <= tile - stride -> n <= 0)) /\
  bins_number dim tile 0 = Raise ZeroDivisionError.
Proof.
  split; [|reflexivity].
  intros Hs. rewrite bins_number_quotient by lia. eexists. split; [reflexivity|].
  assert (Hpos : (0 < inject_Z stride)%Q).
  { change 0%Q with (inject_Z 0). rewrite <- Zlt_Qlt. lia. }
  split; [|split].
  - intros Hd. pose proof (py_round_ge
      (inject_Z (dim - tile) / inject_Z stride) 0) as H.
    assert ((inject_Z 0 <= inject_Z (dim - tile) / inject_Z stride)%Q).
    { apply Qle_shift_div_l; [exact Hpos|]. rewrite Qmult_0_l.
      change 0%Q with (inject_Z 0). rewrite <- Zle_Qle. lia. }
    specialize (H H0). lia.
  - intros Hd Hm.
    assert (Hk : dim - tile = stride * ((dim - tile) / stride)).
    { pose proof (Z.div_mod (dim - tile) stride ltac:(lia)). lia. }
    set (k := (dim - tile) / stride) in *.
    assert (Hq : (inject_Z (dim - tile) / inject_Z stride == inject_Z k)%Q).
    { rewrite Hk, inject_Z_mult. field. lra. }
    rewrite (py_round_comp _ _ Hq), py_round_Z. lia.
  - intros Hd. pose proof (py_round_le
      (inject_Z (dim - tile) / inject_Z stride) (-1)) as H.
    assert ((inject_Z (dim - tile) / inject_Z stride <= inject_Z (-1))%Q).
    { apply Qle_shift_div_r; [exact Hpos|].
      rewrite <- inject_Z_mult, <- Zle_Qle. lia. }
    specialize (H H0). lia.
Qed.

Lemma bins_number_counts_tiles_witness :
  exists n, bins_number 112 64 48 = Ok n /\
    (64 <= 112 -> 1 <= n) /\
    (64 <= 112 -> (112 - 64) mod 48 = 0 ->
       n = (112 - 64) / 48 + 1 /\ (n - 1) * 48 + 64 = 112) /\
    (112 <= 64 - 48 -> n <= 0).
Proof. apply (bins_number_counts_tiles 112 64 48). lia. Defined.
